(** * alchemy-logging (C++): the channel/level logging registry

    A shallow embedding of [src/src/logger.cpp] and of the declarations of
    [src/include/logger.h] it relies on: the level enumeration and its two
    string tables, the filter-spec parser, the registry singleton (filters,
    default level, flags, per-thread indentation, sinks) and the two
    formatters.

    Conventions.
    - [std::string] is [string] (a list of 8-bit characters).
    - A C++ exception is a value of [exception]; a function that may throw
      returns a [Result]; a method of the registry that may throw is a
      function from the registry to a [Result] together with the registry as
      the throw (or the return) leaves it.
    - [unsigned] is a [Z] in [0, 2^32), the increment written with its
      wrap-around.
    - [std::unordered_map] and [std::map] are [gmap]; where the code iterates
      a [std::map] the bindings are listed by increasing key.
    - The clock, the printing of a [std::thread::id] and the JSON serialiser
      are outside the repository: they are fields of the class [Runtime]. *)

From Stdlib Require Import ZArith Lia Ascii.
From Stdlib Require String.
From stdpp Require Import base option list strings pretty gmap fin_maps sorting.

Local Open Scope Z_scope.

(** ** Exceptions and results *)

(** [std::runtime_error(what)], the only exception type the code throws. *)
Inductive exception : Type :=
| runtime_error (what : string).

Inductive Result (A : Type) : Type :=
| Ok (a : A)
| Throw (e : exception).
Arguments Ok {A} a.
Arguments Throw {A} e.

Definition Result_bind {A B : Type} (r : Result A) (k : A -> Result B) : Result B :=
  match r with
  | Ok a => k a
  | Throw e => Throw e
  end.

Definition is_Ok {A : Type} (r : Result A) : bool :=
  match r with
  | Ok _ => true
  | Throw _ => false
  end.

(** The three conditions the specification names, as the messages the code
    builds for them. *)
Definition InvalidFilterSpec (a_spec : string) : exception :=
  runtime_error ("Invalid Log Spec [" +:+ a_spec +:+ "]").

Definition InvalidLevelSpec (a_str : string) : exception :=
  runtime_error ("Invalid Log Level Spec [" +:+ a_str +:+ "]").

Definition LoggingToOffDisallowed : exception :=
  runtime_error "Logging to 'off' is not allowed".

(** ** Levels (logger.h, lines 70-83) *)

Inductive ELogLevels : Type :=
| off
| fatal
| error
| warning
| info
| trace
| debug
| debug1
| debug2
| debug3
| debug4.

#[global] Instance ELogLevels_eq_dec : EqDecision ELogLevels.
Proof. solve_decision. Defined.

(** The integer value of an enumerator: [off = 0], then counting up. *)
Definition level_value (l : ELogLevels) : Z :=
  match l with
  | off => 0
  | fatal => 1
  | error => 2
  | warning => 3
  | info => 4
  | trace => 5
  | debug => 6
  | debug1 => 7
  | debug2 => 8
  | debug3 => 9
  | debug4 => 10
  end.

Definition all_levels : list ELogLevels :=
  [off; fatal; error; warning; info; trace; debug; debug1; debug2; debug3; debug4].

(** [a >= b] on two enumerators compares their integer values. *)
Definition level_ge (a b : ELogLevels) : bool := level_value b <=? level_value a.

(** The table of [operator<<] (logger.cpp, lines 108-121). *)
Definition level_header_strings : list string :=
  ["OFF "; "FATL"; "ERRR"; "WARN"; "INFO"; "TRCE"; "DBUG"; "DBG1"; "DBG2"; "DBG3"; "DBG4"].

(** The table of [LevelToHumanString] (logger.cpp, lines 133-146). *)
Definition level_human_strings : list string :=
  ["off"; "fatal"; "error"; "warning"; "info"; "trace"; "debug";
   "debug1"; "debug2"; "debug3"; "debug4"].

(** Both functions index their table when the value is below its size and
    print the integer otherwise. *)
Definition level_from_table (table : list string) (a_level : ELogLevels) : string :=
  match table !! Z.to_nat (level_value a_level) with
  | Some s => s
  | None => pretty (level_value a_level)
  end.

Definition level_to_stream (a_level : ELogLevels) : string :=
  level_from_table level_header_strings a_level.

Definition LevelToHumanString (a_level : ELogLevels) : string :=
  level_from_table level_human_strings a_level.

(** [ParseLevel] (logger.cpp, lines 159-179): a chain of string comparisons
    whose last branch throws. *)
Definition ParseLevel (a_str : string) : Result ELogLevels :=
  if String.eqb a_str "off" then Ok off
  else if String.eqb a_str "fatal" then Ok fatal
  else if String.eqb a_str "error" then Ok error
  else if String.eqb a_str "warning" then Ok warning
  else if String.eqb a_str "info" then Ok info
  else if String.eqb a_str "trace" then Ok trace
  else if String.eqb a_str "debug" then Ok debug
  else if String.eqb a_str "debug1" then Ok debug1
  else if String.eqb a_str "debug2" then Ok debug2
  else if String.eqb a_str "debug3" then Ok debug3
  else if String.eqb a_str "debug4" then Ok debug4
  else Throw (InvalidLevelSpec a_str).

(** ** Splitting (logger.cpp, lines 44-58) *)

(** [split s delim] repeats [std::getline(ss, item, delim)] while it succeeds.
    One call reads up to the next [delim], which it consumes, or up to the end
    of the stream; it fails, and the loop ends, when it is called at the end
    of the stream. So a piece that ends at a delimiter is kept even when
    empty, and nothing follows a final delimiter. [item] is the piece read so
    far. *)
Fixpoint split_from (item : string) (s : string) (delim : ascii) : list string :=
  match s with
  | EmptyString =>
      if String.eqb item "" then [] else [item]
  | String c rest =>
      if Ascii.eqb c delim
      then item :: split_from "" rest delim
      else split_from (item +:+ String c "") rest delim
  end.

Definition split (s : string) (delim : ascii) : list string :=
  split_from "" s delim.

(** ** The filter map and its parser (logger.cpp, lines 60-82) *)

Abbreviation FilterMap := (gmap string ELogLevels).

(** One round of the loop of [parseFilterSpec]: split the pair on [':'],
    throw unless there are exactly two parts, parse the second and assign. *)
Definition parseFilterPair (a_spec : string) (out : FilterMap) (spec_pair : string)
  : Result FilterMap :=
  match split spec_pair ":" with
  | [channel; level_str] =>
      Result_bind (ParseLevel level_str) (fun l => Ok (<[channel := l]> out))
  | _ => Throw (InvalidFilterSpec a_spec)
  end.

Fixpoint parseFilterPairs (a_spec : string) (out : FilterMap) (splitVec : list string)
  : Result FilterMap :=
  match splitVec with
  | [] => Ok out
  | spec_pair :: more =>
      Result_bind (parseFilterPair a_spec out spec_pair)
                  (fun out' => parseFilterPairs a_spec out' more)
  end.

(** The short-circuit [return {{}}] list-initialises the map from one
    value-initialised pair: the empty channel name bound to the enumerator of
    value 0. *)
Definition parseFilterSpec (a_spec : string) : Result FilterMap :=
  if String.eqb a_spec "" then Ok {[ "" := off ]}
  else parseFilterPairs a_spec ∅ (split a_spec ",").


(** ** JSON values and the runtime

    The map data of an entry is a JSON object ([json] in logger.cpp,
    [jsonparser::TObject] in logger.h); its declaration is not part of the
    repository's sources. *)

#[local] Unset Elimination Schemes.

(** Modelled from the spec: the values of the "structured key/value map
    (string -> JSON-like scalar/array/object value)" of the data model. *)
Inductive TJsonValue : Type :=
| JNull
| JBool (b : bool)
| JNumber (n : Z)
| JString (s : string)
| JArray (items : list TJsonValue)
| JObject (fields : list (string * TJsonValue)).
#[local] Set Elimination Schemes.

Abbreviation TObject := (gmap string TJsonValue).

(** A thread identity ([std::thread::id]) and a sink ([TStreamRef], a
    reference to a stream the caller owns). *)
Abbreviation TThreadID := nat.
Abbreviation TStreamRef := nat.

(** What the code calls in the C++ runtime and in the JSON library. *)
Class Runtime : Type := {
  (** [ss << a_entry.threadId] *)
  thread_id_to_stream : TThreadID -> string;
  (** [j.dump()] of an object, keys in increasing order, on one line *)
  json_dump : TObject -> string;
  (** [ss << iter.value()] *)
  json_value_to_stream : TJsonValue -> string
}.

(** The bindings of a JSON object in the order its iterator visits them. *)
Definition key_le (p q : string * TJsonValue) : Prop := String.le p.1 q.1.

#[global] Instance key_le_dec : RelDecision key_le.
Proof. intros p q. unfold key_le. apply _. Defined.

Definition object_items (o : TObject) : list (string * TJsonValue) :=
  merge_sort key_le (map_to_list o).

(** ** Constants (logger.h, lines 61-67) *)

Definition MAX_CHANNEL_LENGTH : nat := 5.
Definition INDENT_VALUE : string := "  ".

(** [unsigned]: 32 bits. *)
Definition UINT_MAX : Z := 4294967295.
Definition unsigned_wrap (n : Z) : Z := n mod (UINT_MAX + 1).

(** ** The registry (logger.h, lines 136-255) *)

(** The two classes that implement [CLogFormatterBase]. *)
Inductive CLogFormatterBase : Type :=
| StdLogFormatter
| JSONLogFormatter.

Abbreviation ThreadIndentMap := (gmap TThreadID Z).
Abbreviation ThreadMetadataMap := (gmap TThreadID TObject).

(** The fields of the singleton; [m_formatter] is a shared pointer, [None]
    when null. The mutexes hold no data and are left out. *)
Record CLogChannelRegistrySingleton : Type := mkRegistry {
  m_filters : FilterMap;
  m_defaultLevel : ELogLevels;
  m_doThreadLog : bool;
  m_doMetadata : bool;
  m_serviceName : string;
  m_sinks : list TStreamRef;
  m_formatter : option CLogFormatterBase;
  m_indents : ThreadIndentMap;
  m_metadata : ThreadMetadataMap
}.

Definition set_m_filters (v : FilterMap) (self : CLogChannelRegistrySingleton) :=
  mkRegistry v (m_defaultLevel self) (m_doThreadLog self) (m_doMetadata self)
             (m_serviceName self) (m_sinks self) (m_formatter self)
             (m_indents self) (m_metadata self).

Definition set_m_defaultLevel (v : ELogLevels) (self : CLogChannelRegistrySingleton) :=
  mkRegistry (m_filters self) v (m_doThreadLog self) (m_doMetadata self)
             (m_serviceName self) (m_sinks self) (m_formatter self)
             (m_indents self) (m_metadata self).

Definition set_m_doThreadLog (v : bool) (self : CLogChannelRegistrySingleton) :=
  mkRegistry (m_filters self) (m_defaultLevel self) v (m_doMetadata self)
             (m_serviceName self) (m_sinks self) (m_formatter self)
             (m_indents self) (m_metadata self).

Definition set_m_doMetadata (v : bool) (self : CLogChannelRegistrySingleton) :=
  mkRegistry (m_filters self) (m_defaultLevel self) (m_doThreadLog self) v
             (m_serviceName self) (m_sinks self) (m_formatter self)
             (m_indents self) (m_metadata self).

Definition set_m_serviceName (v : string) (self : CLogChannelRegistrySingleton) :=
  mkRegistry (m_filters self) (m_defaultLevel self) (m_doThreadLog self)
             (m_doMetadata self) v (m_sinks self) (m_formatter self)
             (m_indents self) (m_metadata self).

Definition set_m_sinks (v : list TStreamRef) (self : CLogChannelRegistrySingleton) :=
  mkRegistry (m_filters self) (m_defaultLevel self) (m_doThreadLog self)
             (m_doMetadata self) (m_serviceName self) v (m_formatter self)
             (m_indents self) (m_metadata self).

Definition set_m_formatter (v : option CLogFormatterBase)
           (self : CLogChannelRegistrySingleton) :=
  mkRegistry (m_filters self) (m_defaultLevel self) (m_doThreadLog self)
             (m_doMetadata self) (m_serviceName self) (m_sinks self) v
             (m_indents self) (m_metadata self).

Definition set_m_indents (v : ThreadIndentMap) (self : CLogChannelRegistrySingleton) :=
  mkRegistry (m_filters self) (m_defaultLevel self) (m_doThreadLog self)
             (m_doMetadata self) (m_serviceName self) (m_sinks self)
             (m_formatter self) v (m_metadata self).

Definition set_m_metadata (v : ThreadMetadataMap) (self : CLogChannelRegistrySingleton) :=
  mkRegistry (m_filters self) (m_defaultLevel self) (m_doThreadLog self)
             (m_doMetadata self) (m_serviceName self) (m_sinks self)
             (m_formatter self) (m_indents self) v.

(** [setFormatter] and the state [instance()] builds at first use: the
    private constructor (logger.h, lines 219-223), then the standard
    formatter (logger.cpp, lines 302-310). *)
Definition setFormatter (a_formatter : option CLogFormatterBase)
           (self : CLogChannelRegistrySingleton) : CLogChannelRegistrySingleton :=
  set_m_formatter a_formatter self.

Definition constructed : CLogChannelRegistrySingleton :=
  mkRegistry ∅ off false false "" [] None ∅ ∅.

Definition instance : CLogChannelRegistrySingleton :=
  setFormatter (Some StdLogFormatter) constructed.

(** Inline readers (logger.h, lines 160-171). *)
Definition threadIDEnabled (self : CLogChannelRegistrySingleton) : bool :=
  m_doThreadLog self.

Definition metadataEnabled (self : CLogChannelRegistrySingleton) : bool :=
  m_doMetadata self.

Definition getServiceName (self : CLogChannelRegistrySingleton) : string :=
  m_serviceName self.

(** [setupFilters] (logger.cpp, lines 312-318): two assignments in a row,
    each of which evaluates a parser that may throw before it stores. *)
Definition setupFilters (a_filterSpec a_defaultLevelSpec : string)
           (self : CLogChannelRegistrySingleton)
  : Result unit * CLogChannelRegistrySingleton :=
  match parseFilterSpec a_filterSpec with
  | Throw e => (Throw e, self)
  | Ok filters =>
      let self1 := set_m_filters filters self in
      match ParseLevel a_defaultLevelSpec with
      | Throw e => (Throw e, self1)
      | Ok lvl => (Ok tt, set_m_defaultLevel lvl self1)
      end
  end.

Definition addSink (a_sink : TStreamRef) (self : CLogChannelRegistrySingleton) :=
  set_m_sinks (m_sinks self ++ [a_sink]) self.

Definition enableThreadID (self : CLogChannelRegistrySingleton) :=
  set_m_doThreadLog true self.

Definition disableThreadID (self : CLogChannelRegistrySingleton) :=
  set_m_doThreadLog false self.

Definition setServiceName (a_serviceName : string) (self : CLogChannelRegistrySingleton) :=
  set_m_serviceName a_serviceName self.

(** [filter] (logger.cpp, lines 350-360). *)
Definition filter (a_channel : string) (a_level : ELogLevels)
           (self : CLogChannelRegistrySingleton) : Result bool :=
  if decide (a_level = off) then Throw LoggingToOffDisallowed
  else
    let iter := m_filters self !! a_channel in
    Ok (level_ge (match iter with
                  | Some second => second
                  | None => m_defaultLevel self
                  end) a_level).

(** [addIndent], [removeIndent], [getIndent] (logger.cpp, lines 395-437);
    [tid] is [std::this_thread::get_id()]. *)
Definition addIndent (tid : TThreadID) (self : CLogChannelRegistrySingleton) :=
  match m_indents self !! tid with
  | None => set_m_indents (<[tid := 1]> (m_indents self)) self
  | Some second => set_m_indents (<[tid := unsigned_wrap (second + 1)]> (m_indents self)) self
  end.

Definition removeIndent (tid : TThreadID) (self : CLogChannelRegistrySingleton) :=
  let indents1 :=
    match m_indents self !! tid with
    | Some second =>
        if 0 <? second then <[tid := second - 1]> (m_indents self) else m_indents self
    | None => m_indents self
    end in
  let indents2 :=
    match indents1 !! tid with
    | Some second => if second =? 0 then delete tid indents1 else indents1
    | None => indents1
    end in
  set_m_indents indents2 self.

Definition getIndent (tid : TThreadID) (self : CLogChannelRegistrySingleton) : Z :=
  match m_indents self !! tid with
  | None => 0
  | Some second => second
  end.

(** [reset] (logger.cpp, lines 439-449): seven assignments; [m_doMetadata]
    and [m_metadata] are not among them. *)
Definition reset (self : CLogChannelRegistrySingleton) : CLogChannelRegistrySingleton :=
  let self := set_m_sinks [] self in
  let self := set_m_filters ∅ self in
  let self := set_m_defaultLevel off self in
  let self := set_m_doThreadLog false self in
  let self := set_m_serviceName "" self in
  let self := set_m_indents ∅ self in
  set_m_formatter (Some StdLogFormatter) self.

(** The metadata operations are declared in logger.h (lines 163-210) and
    defined nowhere in the sources. *)

(** Modelled from the spec: [enableMetadata], one of the "simple atomic
    flag/field writes under the lock". *)
Definition enableMetadata (self : CLogChannelRegistrySingleton) :=
  set_m_doMetadata true self.

(** Modelled from the spec: [disableMetadata], the write of the other value
    to the same flag. *)
Definition disableMetadata (self : CLogChannelRegistrySingleton) :=
  set_m_doMetadata false self.

(** Modelled from the spec: [getMetadata], which "delegate[s] to
    ThreadContext for the calling thread": the calling thread's map, empty
    when the thread has none. *)
Definition getMetadata (tid : TThreadID) (self : CLogChannelRegistrySingleton) : TObject :=
  default ∅ (m_metadata self !! tid).

(** Modelled from the spec: [addMetadata]; in the calling thread's map
    "values may shadow on duplicate key". *)
Definition addMetadata (tid : TThreadID) (a_key : string) (a_value : TJsonValue)
           (self : CLogChannelRegistrySingleton) :=
  set_m_metadata (<[tid := <[a_key := a_value]> (getMetadata tid self)]> (m_metadata self)) self.

(** Modelled from the spec: [removeMetadata]; the calling thread's map is
    "removable by key", and "removing a non-existent metadata key" is a
    no-op. *)
Definition removeMetadata (tid : TThreadID) (a_key : string)
           (self : CLogChannelRegistrySingleton) :=
  set_m_metadata (<[tid := delete a_key (getMetadata tid self)]> (m_metadata self)) self.

(** Modelled from the spec: [clearMetadata]; the calling thread's map is
    "cleared entirely". *)
Definition clearMetadata (tid : TThreadID) (self : CLogChannelRegistrySingleton) :=
  set_m_metadata (delete tid (m_metadata self)) self.

(** ** Log entries (logger.h, lines 87-101; logger.cpp, lines 181-193) *)

Record CLogEntry : Type := mkEntry {
  channel : string;
  level : ELogLevels;
  message : string;
  timestamp : string;
  serviceName : string;
  nIndent : Z;
  threadId : TThreadID;
  mapData : TObject
}.

(** The constructor reads the service name and the calling thread's indent
    from the registry; [now] is what [getTimestamp()] returns and [tid] the
    calling thread. *)
Definition CLogEntry_new (self : CLogChannelRegistrySingleton) (tid : TThreadID)
           (now : string) (a_channel : string) (a_level : ELogLevels)
           (a_message : string) (a_mapData : TObject) : CLogEntry :=
  mkEntry a_channel a_level a_message now (getServiceName self)
          (getIndent tid self) tid a_mapData.

(** ** String helpers of the formatters *)

Definition newline : ascii := Ascii.ascii_of_nat 10.

(** [std::endl] as the characters it puts on the stream. *)
Definition endl : string := String newline "".

(** [s.resize(n, c)]: cut to [n] characters, or pad with [c] up to [n]. *)
Fixpoint resize (n : nat) (c : ascii) (s : string) : string :=
  match n with
  | O => ""
  | S n' =>
      match s with
      | EmptyString => String c (resize n' c "")
      | String a rest => String a (resize n' c rest)
      end
  end.

(** The loop [for (unsigned i = 0; i < n; ++i) ss << INDENT_VALUE]. *)
Fixpoint indent_loop (n : nat) : string :=
  match n with
  | O => ""
  | S n' => INDENT_VALUE +:+ indent_loop n'
  end.

(** ** The standard formatter (logger.cpp, lines 197-258) *)

Module CStdLogFormatter.
Section WithRuntime.
Context `{Runtime}.

Definition getHeader (registry : CLogChannelRegistrySingleton) (a_entry : CLogEntry)
  : string :=
  let ch := resize MAX_CHANNEL_LENGTH " " (channel a_entry) in
  timestamp a_entry
  +:+ (if String.eqb (serviceName a_entry) "" then ""
       else " <" +:+ serviceName a_entry +:+ ">")
  +:+ " [" +:+ ch +:+ ":" +:+ level_to_stream (level a_entry)
  +:+ (if threadIDEnabled registry
       then ":" +:+ thread_id_to_stream (threadId a_entry)
       else "")
  +:+ "] "
  +:+ indent_loop (Z.to_nat (nIndent a_entry)).

Definition formatEntry (registry : CLogChannelRegistrySingleton) (a_entry : CLogEntry)
  : list string :=
  let splitVec := split (message a_entry) newline in
  let format := getHeader registry a_entry in
  map (fun line => format +:+ line +:+ endl) splitVec
  ++ map (fun kv => format +:+ kv.1 +:+ ": " +:+ json_value_to_stream kv.2 +:+ endl)
         (object_items (mapData a_entry)).

End WithRuntime.
End CStdLogFormatter.

(** ** The JSON formatter (logger.cpp, lines 262-296) *)

Module CJSONLogFormatter.
Section WithRuntime.
Context `{Runtime}.

(** The object [j] when [formatEntry] reaches [j.dump()]. *)
Definition entryObject (registry : CLogChannelRegistrySingleton) (a_entry : CLogEntry)
  : TObject :=
  let j := mapData a_entry in
  let j := <["channel" := JString (channel a_entry)]> j in
  let j := <["level_str" := JString (LevelToHumanString (level a_entry))]> j in
  let j := <["timestamp" := JString (timestamp a_entry)]> j in
  let j := <["num_indent" := JNumber (nIndent a_entry)]> j in
  let j := if String.eqb (message a_entry) "" then j
           else <["message" := JString (message a_entry)]> j in
  let j := if threadIDEnabled registry
           then <["thread_id" := JString (thread_id_to_stream (threadId a_entry))]> j
           else j in
  let j := if String.eqb (serviceName a_entry) "" then j
           else <["service_name" := JString (serviceName a_entry)]> j in
  j.

Definition formatEntry (registry : CLogChannelRegistrySingleton) (a_entry : CLogEntry)
  : list string :=
  [json_dump (entryObject registry a_entry) +:+ endl].

End WithRuntime.
End CJSONLogFormatter.

(** The virtual call [m_formatter->formatEntry(entry)]. *)
Definition formatEntry `{Runtime} (f : CLogFormatterBase)
           (registry : CLogChannelRegistrySingleton) (a_entry : CLogEntry) : list string :=
  match f with
  | StdLogFormatter => CStdLogFormatter.formatEntry registry a_entry
  | JSONLogFormatter => CJSONLogFormatter.formatEntry registry a_entry
  end.

(** ** [log] (logger.cpp, lines 362-385)

    The registry is not changed; what the call does is write to the sinks.
    The result lists the writes [sink.get() << line] in the order the two
    loops make them. The body takes no lock. *)
Definition log `{Runtime} (tid : TThreadID) (now : string)
           (a_channel : string) (a_level : ELogLevels) (a_msg : string)
           (a_mapData : TObject) (self : CLogChannelRegistrySingleton)
  : list (TStreamRef * string) :=
  match m_formatter self with
  | None => []
  | Some f =>
      let entry := CLogEntry_new self tid now a_channel a_level a_msg a_mapData in
      flat_map (fun line => map (fun sink => (sink, line)) (m_sinks self))
               (formatEntry f self entry)
  end.

(** [ALOG_LEVEL_IMPL] (logger.h, lines 390-396): filter, then log. *)
Definition ALOG_LEVEL_IMPL `{Runtime} (tid : TThreadID) (now : string)
           (a_channel : string) (a_level : ELogLevels) (a_msg : string)
           (a_map : TObject) (self : CLogChannelRegistrySingleton)
  : Result (list (TStreamRef * string)) :=
  Result_bind (filter a_channel a_level self)
              (fun enabled =>
                 Ok (if enabled then log tid now a_channel a_level a_msg a_map self
                     else [])).

(** A runtime to evaluate the formatters with: thread ids in decimal and a
    compact serialiser (keys in increasing order, no white space, strings
    written between quotes as they are). *)
Definition dquote : string := String (Ascii.ascii_of_nat 34) "".

Fixpoint demo_value_to_stream (v : TJsonValue) : string :=
  match v with
  | JNull => "null"
  | JBool b => if b then "true" else "false"
  | JNumber n => pretty n
  | JString s => dquote +:+ s +:+ dquote
  | JArray items =>
      "[" +:+ (fix go (l : list TJsonValue) : string :=
                 match l with
                 | [] => ""
                 | [x] => demo_value_to_stream x
                 | x :: more => demo_value_to_stream x +:+ "," +:+ go more
                 end) items +:+ "]"
  | JObject fields =>
      "{" +:+ (fix go (l : list (string * TJsonValue)) : string :=
                 match l with
                 | [] => ""
                 | [(k, x)] => dquote +:+ k +:+ dquote +:+ ":" +:+ demo_value_to_stream x
                 | (k, x) :: more =>
                     dquote +:+ k +:+ dquote +:+ ":" +:+ demo_value_to_stream x
                     +:+ "," +:+ go more
                 end) fields +:+ "}"
  end.

Definition demo_runtime : Runtime := {|
  thread_id_to_stream := fun tid => pretty tid;
  json_dump := fun o => demo_value_to_stream (JObject (object_items o));
  json_value_to_stream := demo_value_to_stream
|}.

(** ** Notions the statements below use *)

(** The level [filter] compares a message level with: the one the table
    holds for the channel, the default level when it holds none. *)
Definition configuredLevel (a_channel : string) (self : CLogChannelRegistrySingleton)
  : ELogLevels :=
  default (m_defaultLevel self) (m_filters self !! a_channel).

(** Strings without a given character. *)
Fixpoint free_of (delim : ascii) (s : string) : Prop :=
  match s with
  | EmptyString => True
  | String c rest => c <> delim /\ free_of delim rest
  end.

(** What [parseFilterSpec] accepts as one pair, said on the characters of
    the pair: a channel without a colon (possibly empty), a colon, one of the
    eleven level names, and possibly one more colon. *)
Definition accepted_pair (spec_pair : string) : Prop :=
  exists (ch : string) (l : ELogLevels),
    free_of ":" ch /\
    (spec_pair = ch +:+ ":" +:+ LevelToHumanString l \/
     spec_pair = ch +:+ ":" +:+ LevelToHumanString l +:+ ":").

(** Every per-thread indent counter holds a value of its type. *)
Definition indents_in_range (self : CLogChannelRegistrySingleton) : Prop :=
  forall (tid : TThreadID) (n : Z), m_indents self !! tid = Some n -> 0 <= n <= UINT_MAX.

(** Calls of the indent interface, tagged with the calling thread. *)
Inductive IndentCall : Type :=
| AddIndent
| RemoveIndent.

#[global] Instance IndentCall_eq_dec : EqDecision IndentCall.
Proof. solve_decision. Defined.

Definition run_indent_call (self : CLogChannelRegistrySingleton)
           (call : TThreadID * IndentCall) : CLogChannelRegistrySingleton :=
  match call.2 with
  | AddIndent => addIndent call.1 self
  | RemoveIndent => removeIndent call.1 self
  end.

Definition run_indent_calls (calls : list (TThreadID * IndentCall))
           (self : CLogChannelRegistrySingleton) : CLogChannelRegistrySingleton :=
  foldl run_indent_call self calls.

(** The calls one thread makes, in order. *)
Definition calls_of (tid : TThreadID) (calls : list (TThreadID * IndentCall))
  : list IndentCall :=
  omap (fun call => if decide (call.1 = tid) then Some call.2 else None) calls.

(** The effect of one call on the caller's own depth. *)
Definition depth_step (d : Z) (call : IndentCall) : Z :=
  match call with
  | AddIndent => unsigned_wrap (d + 1)
  | RemoveIndent => if 0 <? d then d - 1 else d
  end.

(** The keys [CJSONLogFormatter::formatEntry] may assign. *)
Definition json_fixed_keys : list string :=
  ["channel"; "level_str"; "timestamp"; "num_indent"; "message"; "thread_id";
   "service_name"].

(** States and entries the examples are evaluated at. *)
Definition demo_timestamp : string := "2020/01/01 00:00:00".

Definition demo_entry : CLogEntry :=
  CLogEntry_new instance 7%nat demo_timestamp "APP" warning "x" {[ "k" := JNumber 1 ]}.

(** An entry as [ALOG_MAP] logs it (empty message), whose map has a
    [message] key. *)
Definition map_only_entry : CLogEntry :=
  CLogEntry_new instance 7%nat demo_timestamp "APP" info ""
                {[ "message" := JString "from the map" ]}.

(** The registry after [UINT_MAX] calls of [addIndent] by one thread. *)
Definition deepest (tid : TThreadID) : CLogChannelRegistrySingleton :=
  run_indent_calls (replicate (Z.to_nat UINT_MAX) (tid, AddIndent)) instance.

(** Splits on the comparisons of [ParseLevel], first to last. *)
Ltac ParseLevel_cases a_str :=
  unfold ParseLevel;
  repeat match goal with
         | |- context [String.eqb a_str ?name] =>
             destruct (String.eqb_spec a_str name) as [->|?]; [try done|]
         end.

(** ** The init functions and the thread macro *)

(** [InitLogStream], [UseStdFormatter], [UseJSONFormatter] (logger.cpp,
    lines 538-561). *)
Definition InitLogStream (a_stream : TStreamRef) (self : CLogChannelRegistrySingleton) :=
  addSink a_stream self.

Definition UseStdFormatter (self : CLogChannelRegistrySingleton) :=
  setFormatter (Some StdLogFormatter) self.

Definition UseJSONFormatter (self : CLogChannelRegistrySingleton) :=
  setFormatter (Some JSONLogFormatter) self.

(** [ALOG_THREAD] (logger.h, lines 587-592): read the thread-id flag, set
    it when it is clear, log through [ALOG], clear it again when it was
    clear. A throw of the log statement leaves the block before the last
    statement. *)
Definition ALOG_THREAD `{Runtime} (tid : TThreadID) (now : string)
           (a_channel : string) (a_level : ELogLevels) (a_msg : string)
           (a_map : TObject) (self : CLogChannelRegistrySingleton)
  : Result (list (TStreamRef * string)) * CLogChannelRegistrySingleton :=
  let currentlyEnabled := threadIDEnabled self in
  let self1 := if negb currentlyEnabled then enableThreadID self else self in
  match ALOG_LEVEL_IMPL tid now a_channel a_level a_msg a_map self1 with
  | Throw e => (Throw e, self1)
  | Ok writes => (Ok writes, if negb currentlyEnabled then disableThreadID self1 else self1)
  end.

(** [CLogScope] (logger.h, lines 262-276; logger.cpp, lines 453-466). The
    constructor stores its three arguments and logs ["Start: "] and the
    message through [ALOG_LEVEL_IMPL] with an empty map; when that throws, the
    constructor throws and no object exists, so no destructor runs. *)
Record CLogScope : Type := mkScope {
  m_logName : string;
  m_level : ELogLevels;
  m_msg : string
}.

Definition CLogScope_new `{Runtime} (tid : TThreadID) (now : string)
           (a_logName : string) (a_level : ELogLevels) (a_msg : string)
           (self : CLogChannelRegistrySingleton)
  : Result (CLogScope * list (TStreamRef * string)) :=
  let scope := mkScope a_logName a_level a_msg in
  Result_bind
    (ALOG_LEVEL_IMPL tid now (m_logName scope) (m_level scope)
                     ("Start: " +:+ m_msg scope) ∅ self)
    (fun writes => Ok (scope, writes)).

(** How a destructor ends. A destructor is [noexcept] unless declared
    otherwise, and [~CLogScope] is not: an exception that leaves its body
    calls [std::terminate]. *)
Inductive DestructorOutcome (A : Type) : Type :=
| Returned (a : A)
| Terminated (e : exception).
Arguments Returned {A} a.
Arguments Terminated {A} e.

Definition noexcept_body {A : Type} (body : Result A) : DestructorOutcome A :=
  match body with
  | Ok a => Returned a
  | Throw e => Terminated e
  end.

(** The destructor logs ["End: "] and the message of the object it is run
    on, on the registry as it is by then. *)
Definition CLogScope_delete `{Runtime} (tid : TThreadID) (now : string)
           (scope : CLogScope) (self : CLogChannelRegistrySingleton)
  : DestructorOutcome (list (TStreamRef * string)) :=
  noexcept_body
    (ALOG_LEVEL_IMPL tid now (m_logName scope) (m_level scope)
                     ("End: " +:+ m_msg scope) ∅ self).

(** ** More notions for the statements *)

(** The pieces of a split put back together, the delimiter between them. *)
Fixpoint join (delim : ascii) (pieces : list string) : string :=
  match pieces with
  | [] => ""
  | piece :: more =>
      match more with
      | [] => piece
      | _ :: _ => piece +:+ String delim (join delim more)
      end
  end.

(** Whether the last character of a string is the delimiter. *)
Fixpoint ends_with (delim : ascii) (s : string) : bool :=
  match s with
  | EmptyString => false
  | String c rest =>
      match rest with
      | EmptyString => Ascii.eqb c delim
      | String _ _ => ends_with delim rest
      end
  end.

(** A filter spec written out from a list of channel/level pairs, and the
    table that assigning the pairs in order gives. *)
Definition print_pair (p : string * ELogLevels) : string :=
  p.1 +:+ ":" +:+ LevelToHumanString p.2.

Definition print_filter_spec (pairs : list (string * ELogLevels)) : string :=
  join "," (print_pair <$> pairs).

Definition table_of (pairs : list (string * ELogLevels)) : FilterMap :=
  foldl (fun out p => <[p.1 := p.2]> out) ∅ pairs.

(** The levels a list of pairs gives for one channel, in order. *)
Definition levels_for (a_channel : string) (pairs : list (string * ELogLevels))
  : list ELogLevels :=
  omap (fun p => if decide (p.1 = a_channel) then Some p.2 else None) pairs.

(** The strings a list of writes sends to one sink, in order. *)
Definition writes_to (a_sink : TStreamRef) (writes : list (TStreamRef * string))
  : list string :=
  omap (fun w => if decide (w.1 = a_sink) then Some w.2 else None) writes.

(** * Properties *)

(** ** String concatenation *)

Lemma str_app_nil_l (s : string) : "" +:+ s = s.
Proof. reflexivity. Qed.

Lemma str_app_cons (c : ascii) (s t : string) : String c s +:+ t = String c (s +:+ t).
Proof. reflexivity. Qed.

(** ** Exceptions *)

Lemma InvalidFilterSpec_not_InvalidLevelSpec (a b : string) :
  InvalidFilterSpec a <> InvalidLevelSpec b.
Proof.
  intros E. cbv [InvalidFilterSpec InvalidLevelSpec String.append] in E.
  discriminate E.
Qed.

Lemma InvalidLevelSpec_inj (a b : string) :
  InvalidLevelSpec a = InvalidLevelSpec b -> a = b.
Proof.
  unfold InvalidLevelSpec. intros [= E%(inj (String.append _))].
  revert b E. induction a as [|c a IH]; intros [|d b]; rewrite ?str_app_cons, ?str_app_nil_l.
  - done.
  - intros [= _ E]. by destruct b.
  - intros [= _ E]. by destruct a.
  - intros [= -> E]. f_equal. auto.
Qed.

(** ** Levels *)

Lemma level_value_inj (a b : ELogLevels) : level_value a = level_value b -> a = b.
Proof. destruct a, b; cbn; congruence. Qed.

Lemma level_value_range (l : ELogLevels) : 0 <= level_value l <= 10.
Proof. destruct l; cbn; lia. Qed.

Lemma level_ge_spec (a b : ELogLevels) :
  level_ge a b = true <-> level_value b <= level_value a.
Proof. unfold level_ge. apply Z.leb_le. Qed.

Lemma LevelToHumanString_in_table (l : ELogLevels) :
  LevelToHumanString l ∈ level_human_strings.
Proof.
  destruct l; cbn; repeat first [apply list_elem_of_here | apply list_elem_of_further].
Qed.

Lemma ParseLevel_Ok_inv (a_str : string) (l : ELogLevels) :
  ParseLevel a_str = Ok l -> a_str = LevelToHumanString l.
Proof. ParseLevel_cases a_str; intros E; by simplify_eq. Qed.

Lemma ParseLevel_Throw_inv (a_str : string) (e : exception) :
  ParseLevel a_str = Throw e ->
  e = InvalidLevelSpec a_str /\ a_str ∉ level_human_strings.
Proof.
  ParseLevel_cases a_str. intros E; simplify_eq. split; [done|].
  unfold level_human_strings. rewrite !not_elem_of_cons. repeat (split; [done|]).
  apply not_elem_of_nil.
Qed.

Lemma ParseLevel_LevelToHumanString (l : ELogLevels) :
  ParseLevel (LevelToHumanString l) = Ok l.
Proof. by destruct l. Qed.

Lemma ParseLevel_unknown (a_str : string) :
  a_str ∉ level_human_strings -> ParseLevel a_str = Throw (InvalidLevelSpec a_str).
Proof.
  intros Hnot. destruct (ParseLevel a_str) as [l|e] eqn:E.
  - apply ParseLevel_Ok_inv in E as ->.
    destruct Hnot. apply LevelToHumanString_in_table.
  - by apply ParseLevel_Throw_inv in E as [-> _].
Qed.

(** C4. For each of the eleven levels, parsing its human-readable name gives
    the level back; and on a string that is none of the eleven lowercase
    names, [ParseLevel] throws the invalid-level-spec error for that string
    (it returns no level at all). *)
Theorem ParseLevel_roundtrip_and_rejects :
  (forall l : ELogLevels, ParseLevel (LevelToHumanString l) = Ok l) /\
  level_human_strings = LevelToHumanString <$> all_levels /\
  (forall a_str : string,
      a_str ∉ level_human_strings ->
      ParseLevel a_str = Throw (InvalidLevelSpec a_str)).
Proof.
  split; [exact ParseLevel_LevelToHumanString|].
  split; [reflexivity|exact ParseLevel_unknown].
Qed.

Lemma ParseLevel_roundtrip_and_rejects_witness :
  ParseLevel (LevelToHumanString debug2) = Ok debug2 /\
  ParseLevel "INFO" = Throw (InvalidLevelSpec "INFO").
Proof.
  destruct ParseLevel_roundtrip_and_rejects as (Hround & _ & Hreject).
  split; [apply Hround|].
  apply Hreject. unfold level_human_strings.
  rewrite !not_elem_of_cons. repeat (split; [discriminate|]). apply not_elem_of_nil.
Defined.

(** ** [filter] *)

(** C5. Whatever the channel, the filter table and the default level,
    [filter] called with the level [off] throws the logging-to-off error and
    returns no boolean. *)
Theorem filter_off_throws (self : CLogChannelRegistrySingleton) (a_channel : string) :
  filter a_channel off self = Throw LoggingToOffDisallowed.
Proof. reflexivity. Qed.

(** C1. For a level other than [off], [filter] returns a boolean, and it
    is true exactly when the integer value of the level is at most that of
    the configured level of the channel (the table's entry when there is one,
    the default level otherwise); when the configured level is [off] it is
    false. *)
Theorem filter_passes_iff (self : CLogChannelRegistrySingleton)
        (a_channel : string) (a_level : ELogLevels) :
  a_level <> off ->
  exists b : bool,
    filter a_channel a_level self = Ok b /\
    (m_filters self !! a_channel = None ->
     configuredLevel a_channel self = m_defaultLevel self) /\
    (forall l, m_filters self !! a_channel = Some l ->
               configuredLevel a_channel self = l) /\
    (b = true <-> level_value a_level <= level_value (configuredLevel a_channel self)) /\
    (configuredLevel a_channel self = off -> b = false).
Proof.
  intros Hoff. unfold filter, configuredLevel.
  destruct (decide (a_level = off)) as [->|_]; [done|].
  eexists; split; [reflexivity|].
  destruct (m_filters self !! a_channel) as [l|]; cbn;
    (split; [done|]); (split; [congruence|]);
    (split; [apply level_ge_spec|]);
    intros ->; destruct a_level; done.
Qed.

Lemma filter_passes_iff_witness :
  exists b : bool,
    filter "OTHER" info (setupFilters "APP:info" "error" instance).2 = Ok b /\
    b = false.
Proof.
  destruct (filter_passes_iff (setupFilters "APP:info" "error" instance).2 "OTHER" info)
    as (b & Hb & Hdefault & _ & Hiff & _); [discriminate|].
  exists b. split; [exact Hb|].
  destruct b; [|reflexivity].
  rewrite Hdefault in Hiff by reflexivity.
  destruct Hiff as [Hle _]. specialize (Hle eq_refl). vm_compute in Hle.
  destruct Hle. reflexivity.
Defined.

(** ** [reset] *)

Lemma getMetadata_addMetadata (self : CLogChannelRegistrySingleton)
      (tid : TThreadID) (a_key : string) (a_value : TJsonValue) :
  getMetadata tid (addMetadata tid a_key a_value self) !! a_key = Some a_value.
Proof.
  unfold getMetadata at 1. unfold addMetadata. cbn.
  rewrite lookup_insert_eq. cbn. apply lookup_insert_eq.
Qed.

(** C10. [reset] empties the sink list, the filter table, the service name
    and every thread's indent counter, clears the thread-id flag, sets the
    default level to [off] and installs the standard formatter; it leaves the
    metadata flag and every thread's metadata map as they were, so metadata
    added before the reset is still what [getMetadata] returns after it. *)
Theorem reset_clears_all_but_metadata (self : CLogChannelRegistrySingleton)
        (tid : TThreadID) (a_key : string) (a_value : TJsonValue) :
  m_sinks (reset self) = [] /\
  m_filters (reset self) = ∅ /\
  m_serviceName (reset self) = "" /\
  m_doThreadLog (reset self) = false /\
  m_indents (reset self) = ∅ /\
  getIndent tid (reset self) = 0 /\
  m_defaultLevel (reset self) = off /\
  m_formatter (reset self) = Some StdLogFormatter /\
  m_metadata (reset self) = m_metadata self /\
  m_doMetadata (reset self) = m_doMetadata self /\
  metadataEnabled (reset self) = metadataEnabled self /\
  getMetadata tid (reset self) = getMetadata tid self /\
  getMetadata tid (reset (addMetadata tid a_key a_value self)) !! a_key = Some a_value.
Proof.
  repeat (split; [reflexivity|]).
  change (getMetadata tid (reset (addMetadata tid a_key a_value self)))
    with (getMetadata tid (addMetadata tid a_key a_value self)).
  apply getMetadata_addMetadata.
Qed.

(** ** Strings and [split] *)

Lemma str_app_nil_r (s : string) : s +:+ "" = s.
Proof. induction s as [|c s IH]; [done|]. by rewrite str_app_cons, IH. Qed.

Lemma str_app_assoc (s t u : string) : (s +:+ t) +:+ u = s +:+ t +:+ u.
Proof. induction s as [|c s IH]; [done|]. by rewrite !str_app_cons, IH. Qed.

Lemma str_app_eq_nil (s t : string) : s +:+ t = "" -> s = "" /\ t = "".
Proof. destruct s; [done|]. rewrite str_app_cons. discriminate. Qed.

Lemma free_of_app (delim : ascii) (s t : string) :
  free_of delim (s +:+ t) <-> free_of delim s /\ free_of delim t.
Proof.
  induction s as [|c s IH]; [cbn; tauto|].
  rewrite str_app_cons. cbn. tauto.
Qed.

Lemma not_free_of_delim (delim : ascii) (s t : string) :
  ~ free_of delim (s +:+ String delim t).
Proof. rewrite free_of_app. cbn. tauto. Qed.

(** A string has no delimiter, or it reads [a], the delimiter, [b] with no
    delimiter in [a]. *)
Lemma first_delim (delim : ascii) (s : string) :
  free_of delim s \/
  exists a b : string, free_of delim a /\ s = a +:+ String delim b.
Proof.
  induction s as [|c s [IH|(a & b & Ha & ->)]].
  - by left.
  - destruct (decide (c = delim)) as [->|Hc].
    + right. by exists "", s.
    + left. by split.
  - right. destruct (decide (c = delim)) as [->|Hc].
    + by exists "", (a +:+ String delim b).
    + exists (String c a), b. by split.
Qed.

Lemma split_from_free (delim : ascii) (s item : string) :
  free_of delim s ->
  split_from item s delim = if String.eqb (item +:+ s) "" then [] else [item +:+ s].
Proof.
  revert item. induction s as [|c s IH]; intros item Hfree; cbn [split_from].
  - by rewrite str_app_nil_r.
  - destruct Hfree as [Hc Hfree].
    apply Ascii.eqb_neq in Hc as ->.
    rewrite IH by done. by rewrite str_app_assoc.
Qed.

Lemma split_from_delim (delim : ascii) (a b item : string) :
  free_of delim a ->
  split_from item (a +:+ String delim b) delim = (item +:+ a) :: split_from "" b delim.
Proof.
  revert item. induction a as [|c a IH]; intros item Hfree.
  - rewrite str_app_nil_l, str_app_nil_r. cbn [split_from]. by rewrite Ascii.eqb_refl.
  - destruct Hfree as [Hc Hfree]. rewrite str_app_cons. cbn [split_from].
    apply Ascii.eqb_neq in Hc as ->.
    rewrite IH by done. by rewrite str_app_assoc.
Qed.

Lemma split_free (delim : ascii) (s : string) :
  free_of delim s -> split s delim = if String.eqb s "" then [] else [s].
Proof. intros Hfree. unfold split. by rewrite split_from_free. Qed.

Lemma split_delim (delim : ascii) (a b : string) :
  free_of delim a -> split (a +:+ String delim b) delim = a :: split b delim.
Proof. intros Hfree. unfold split. by rewrite split_from_delim. Qed.

Lemma split_nil_inv (delim : ascii) (s : string) : split s delim = [] -> s = "".
Proof.
  destruct (first_delim delim s) as [Hfree|(a & b & Ha & ->)].
  - rewrite split_free by done. by destruct (String.eqb_spec s "").
  - by rewrite split_delim.
Qed.

Lemma split_pieces_free (delim : ascii) (s piece : string) :
  piece ∈ split s delim -> free_of delim piece.
Proof.
  remember (String.length s) as n eqn:Hn. revert s Hn piece.
  induction n as [n IH] using lt_wf_ind. intros s -> piece.
  destruct (first_delim delim s) as [Hfree|(a & b & Ha & ->)].
  - rewrite split_free by done. destruct (String.eqb_spec s "").
    + by intros ?%elem_of_nil.
    + by intros ->%list_elem_of_singleton.
  - rewrite split_delim by done. intros [->|Hin]%elem_of_cons; [done|].
    eapply (IH (String.length b)); [|done..].
    clear. induction a as [|c a IHa].
    + rewrite str_app_nil_l. cbn. lia.
    + rewrite str_app_cons. cbn. lia.
Qed.

(** The strings that split into exactly two pieces. *)
Lemma split_two_iff (delim : ascii) (s x y : string) :
  split s delim = [x; y] <->
  free_of delim x /\ free_of delim y /\
  ((y <> "" /\ s = x +:+ String delim y) \/
   s = x +:+ String delim (y +:+ String delim "")).
Proof.
  split.
  - intros Hsplit.
    destruct (first_delim delim s) as [Hfree|(a & b & Ha & ->)].
    { rewrite split_free in Hsplit by done. by destruct (String.eqb s ""). }
    rewrite split_delim in Hsplit by done. injection Hsplit as -> Hb.
    split; [done|].
    destruct (first_delim delim b) as [Hfree|(a' & b' & Ha' & ->)].
    + rewrite split_free in Hb by done.
      destruct (String.eqb_spec b ""); [done|]. injection Hb as <-. by auto.
    + rewrite split_delim in Hb by done. injection Hb as -> Hb'.
      apply split_nil_inv in Hb' as ->. by auto.
  - intros (Hx & Hy & [[Hne ->]| ->]); rewrite split_delim by done.
    + rewrite split_free by done. by destruct (String.eqb_spec y "").
    + rewrite split_delim by done. by rewrite split_free.
Qed.

Lemma LevelToHumanString_free (l : ELogLevels) : free_of ":" (LevelToHumanString l).
Proof. destruct l; cbn; repeat split; discriminate. Qed.

Lemma LevelToHumanString_nonempty (l : ELogLevels) : LevelToHumanString l <> "".
Proof. by destruct l. Qed.

(** ** The filter-spec parser *)

Lemma parseFilterPair_Ok_iff (a_spec spec_pair : string) (out out' : FilterMap) :
  parseFilterPair a_spec out spec_pair = Ok out' <->
  exists (ch : string) (l : ELogLevels),
    free_of ":" ch /\
    (spec_pair = ch +:+ ":" +:+ LevelToHumanString l \/
     spec_pair = ch +:+ ":" +:+ LevelToHumanString l +:+ ":") /\
    out' = <[ch := l]> out.
Proof.
  unfold parseFilterPair. split.
  - destruct (split spec_pair ":") as [|x [|y [|z more]]] eqn:Hsplit; try done.
    destruct (ParseLevel y) as [l|e] eqn:Hlevel; [|done].
    cbn. intros [= <-]. apply ParseLevel_Ok_inv in Hlevel as ->.
    apply split_two_iff in Hsplit as (Hx & _ & Hshape).
    exists x, l. split; [done|]. split; [|done].
    destruct Hshape as [[_ ->]| ->]; auto.
  - intros (ch & l & Hch & Hshape & ->).
    assert (split spec_pair ":" = [ch; LevelToHumanString l]) as ->.
    { apply split_two_iff. split; [done|]. split; [apply LevelToHumanString_free|].
      destruct Hshape as [->| ->]; [left|right]; [|done].
      split; [apply LevelToHumanString_nonempty|done]. }
    by rewrite ParseLevel_LevelToHumanString.
Qed.

Lemma parseFilterPair_Throw (a_spec spec_pair : string) (out : FilterMap) (e : exception) :
  parseFilterPair a_spec out spec_pair = Throw e ->
  (e = InvalidFilterSpec a_spec /\ length (split spec_pair ":") <> 2%nat) \/
  (exists ch level_str : string,
      split spec_pair ":" = [ch; level_str] /\
      (level_str ∉ level_human_strings) /\ e = InvalidLevelSpec level_str).
Proof.
  unfold parseFilterPair.
  destruct (split spec_pair ":") as [|x [|y [|z more]]] eqn:Hsplit;
    try (intros [= <-]; left; split; [done|cbn; lia]).
  destruct (ParseLevel y) as [l|e'] eqn:Hlevel; [done|].
  cbn. intros [= <-]. apply ParseLevel_Throw_inv in Hlevel as [-> Hnot].
  right. by exists x, y.
Qed.

Lemma parseFilterPairs_Ok_iff (a_spec : string) (splitVec : list string) (out : FilterMap) :
  (exists out', parseFilterPairs a_spec out splitVec = Ok out') <->
  Forall accepted_pair splitVec.
Proof.
  revert out. induction splitVec as [|spec_pair more IH]; intros out; cbn.
  - split; [by constructor|by eexists].
  - rewrite Forall_cons.
    destruct (parseFilterPair a_spec out spec_pair) as [out1|e] eqn:Hpair; cbn.
    + rewrite IH. apply parseFilterPair_Ok_iff in Hpair as (ch & l & ? & ? & _).
      split; [|tauto]. intros ?. split; [by exists ch, l|done].
    + split; [by intros [? ?]|]. intros [(ch & l & Hch & Hshape) _].
      assert (parseFilterPair a_spec out spec_pair = Ok (<[ch := l]> out)) as Hok.
      { apply parseFilterPair_Ok_iff. by exists ch, l. }
      congruence.
Qed.

Lemma parseFilterPairs_Throw (a_spec : string) (splitVec : list string) (out : FilterMap)
      (e : exception) :
  parseFilterPairs a_spec out splitVec = Throw e ->
  e = InvalidFilterSpec a_spec \/
  exists level_str : string, (level_str ∉ level_human_strings) /\ e = InvalidLevelSpec level_str.
Proof.
  revert out. induction splitVec as [|spec_pair more IH]; intros out; cbn; [done|].
  destruct (parseFilterPair a_spec out spec_pair) as [out1|e'] eqn:Hpair; cbn.
  - apply IH.
  - intros [= <-].
    apply parseFilterPair_Throw in Hpair as [[-> _]|(ch & lv & _ & Hnot & ->)]; [by left|].
    right. by exists lv.
Qed.

Lemma parseFilterSpec_Ok_iff (a_spec : string) :
  (exists out, parseFilterSpec a_spec = Ok out) <->
  a_spec = "" \/ Forall accepted_pair (split a_spec ",").
Proof.
  unfold parseFilterSpec. destruct (String.eqb_spec a_spec "") as [->|Hne].
  - split; [by left|by eexists].
  - rewrite parseFilterPairs_Ok_iff. tauto.
Qed.

Lemma parseFilterSpec_Throw (a_spec : string) (e : exception) :
  parseFilterSpec a_spec = Throw e ->
  e = InvalidFilterSpec a_spec \/
  exists level_str : string, (level_str ∉ level_human_strings) /\ e = InvalidLevelSpec level_str.
Proof.
  unfold parseFilterSpec. destruct (String.eqb a_spec ""); [done|].
  apply parseFilterPairs_Throw.
Qed.

(** ** [setupFilters] *)

(** A filter spec that does not parse leaves the registry as it was. *)
Lemma setupFilters_bad_filter_spec (a_filterSpec a_defaultLevelSpec : string)
      (self : CLogChannelRegistrySingleton) (e : exception) :
  parseFilterSpec a_filterSpec = Throw e ->
  setupFilters a_filterSpec a_defaultLevelSpec self = (Throw e, self).
Proof. intros Hparse. unfold setupFilters. by rewrite Hparse. Qed.

(** A default level that does not parse, after a filter spec that does: the
    call throws with the new filter table stored and the old default level. *)
Lemma setupFilters_bad_default_level (a_filterSpec a_defaultLevelSpec : string)
      (self : CLogChannelRegistrySingleton) (filters : FilterMap) (e : exception) :
  parseFilterSpec a_filterSpec = Ok filters ->
  ParseLevel a_defaultLevelSpec = Throw e ->
  setupFilters a_filterSpec a_defaultLevelSpec self = (Throw e, set_m_filters filters self).
Proof. intros Hparse Hlevel. unfold setupFilters. by rewrite Hparse, Hlevel. Qed.

Lemma setupFilters_Ok (a_filterSpec a_defaultLevelSpec : string)
      (self : CLogChannelRegistrySingleton) (filters : FilterMap) (l : ELogLevels) :
  parseFilterSpec a_filterSpec = Ok filters ->
  ParseLevel a_defaultLevelSpec = Ok l ->
  setupFilters a_filterSpec a_defaultLevelSpec self
  = (Ok tt, set_m_defaultLevel l (set_m_filters filters self)).
Proof. intros Hparse Hlevel. unfold setupFilters. by rewrite Hparse, Hlevel. Qed.

(** C2, at the input where the code departs from it. On the registry as
    first built, [setupFilters("APP:info", "verbose")] throws the
    invalid-level-spec error, and the registry it leaves holds the new filter
    table, with [APP] bound to [info], beside the old default level [off]:
    the table was stored before the default level was parsed. *)
Theorem setupFilters_bad_default_level_stores_filters :
  (setupFilters "APP:info" "verbose" instance).1 = Throw (InvalidLevelSpec "verbose") /\
  m_filters instance = ∅ /\
  m_filters (setupFilters "APP:info" "verbose" instance).2 = {[ "APP" := info ]} /\
  m_defaultLevel (setupFilters "APP:info" "verbose" instance).2 = off /\
  filter "APP" info instance = Ok false /\
  filter "APP" info (setupFilters "APP:info" "verbose" instance).2 = Ok true.
Proof. repeat split; vm_compute; reflexivity. Qed.

(** When [setupFilters] returns and what it may throw. *)
Lemma setupFilters_outcome (a_filterSpec a_defaultLevelSpec : string)
      (self : CLogChannelRegistrySingleton) :
  ((setupFilters a_filterSpec a_defaultLevelSpec self).1 = Ok tt <->
   (a_filterSpec = "" \/ Forall accepted_pair (split a_filterSpec ",")) /\
   a_defaultLevelSpec ∈ level_human_strings) /\
  (forall e : exception,
      (setupFilters a_filterSpec a_defaultLevelSpec self).1 = Throw e ->
      e = InvalidFilterSpec a_filterSpec \/
      exists level_str : string,
        (level_str ∉ level_human_strings) /\ e = InvalidLevelSpec level_str).
Proof.
  destruct (parseFilterSpec a_filterSpec) as [filters|e1] eqn:Hparse.
  - assert (a_filterSpec = "" \/ Forall accepted_pair (split a_filterSpec ",")) as Hspec.
    { apply parseFilterSpec_Ok_iff. by eexists. }
    destruct (ParseLevel a_defaultLevelSpec) as [l|e2] eqn:Hlevel.
    + rewrite (setupFilters_Ok _ _ _ _ _ Hparse Hlevel). cbn.
      apply ParseLevel_Ok_inv in Hlevel as ->.
      split; [|done]. split; [|done]. intros _. split; [done|].
      apply LevelToHumanString_in_table.
    + rewrite (setupFilters_bad_default_level _ _ _ _ _ Hparse Hlevel). cbn.
      apply ParseLevel_Throw_inv in Hlevel as [-> Hnot].
      split; [split; [done|tauto]|].
      intros e [= <-]. right. by eexists.
  - rewrite (setupFilters_bad_filter_spec _ _ _ _ Hparse). cbn. split.
    + split; [done|]. intros [Hspec _].
      apply parseFilterSpec_Ok_iff in Hspec as [out Hout]. congruence.
    + intros e [= <-]. by apply parseFilterSpec_Throw.
Qed.

(** The loop of [parseFilterSpec] over two lists in a row. *)
Lemma parseFilterPairs_app (a_spec : string) (first more : list string) (out : FilterMap) :
  parseFilterPairs a_spec out (first ++ more)
  = Result_bind (parseFilterPairs a_spec out first)
                (fun out' => parseFilterPairs a_spec out' more).
Proof.
  revert out. induction first as [|spec_pair first IH]; intros out; [done|].
  cbn. destruct (parseFilterPair a_spec out spec_pair) as [out1|e]; cbn; [apply IH|done].
Qed.

(** The two ways a pair is refused, each with its own error. *)
Lemma parseFilterPair_not_two_parts (a_spec spec_pair : string) (out : FilterMap) :
  length (split spec_pair ":") <> 2%nat ->
  parseFilterPair a_spec out spec_pair = Throw (InvalidFilterSpec a_spec).
Proof.
  unfold parseFilterPair.
  by destruct (split spec_pair ":") as [|x [|y [|z more]]].
Qed.

Lemma parseFilterPair_unknown_level (a_spec spec_pair ch level_str : string)
      (out : FilterMap) :
  split spec_pair ":" = [ch; level_str] ->
  level_str ∉ level_human_strings ->
  parseFilterPair a_spec out spec_pair = Throw (InvalidLevelSpec level_str).
Proof.
  intros Hsplit Hnot. unfold parseFilterPair. rewrite Hsplit.
  by rewrite ParseLevel_unknown.
Qed.

(** The first pair that is refused decides the outcome of [setupFilters]:
    the call throws that pair's error and stores nothing. *)
Lemma setupFilters_first_refused (a_filterSpec a_defaultLevelSpec : string)
      (self : CLogChannelRegistrySingleton) (good rest : list string) (bad : string)
      (e : exception) :
  a_filterSpec <> "" ->
  split a_filterSpec "," = good ++ bad :: rest ->
  Forall accepted_pair good ->
  (forall out : FilterMap, parseFilterPair a_filterSpec out bad = Throw e) ->
  setupFilters a_filterSpec a_defaultLevelSpec self = (Throw e, self).
Proof.
  intros Hne Hsplit Hgood Hbad. apply setupFilters_bad_filter_spec.
  unfold parseFilterSpec. destruct (String.eqb_spec a_filterSpec ""); [done|].
  rewrite Hsplit, parseFilterPairs_app.
  apply (parseFilterPairs_Ok_iff a_filterSpec good ∅) in Hgood as [out' ->].
  cbn. by rewrite Hbad.
Qed.

(** C3, as the code has it. [setupFilters] returns normally exactly when
    the default level is one of the eleven names and the filter spec is empty
    or each piece [split] cuts it into at the commas is a channel without a
    colon (the empty channel included), a colon, one of the eleven names and
    at most one more colon. When it throws, the error is the invalid-filter-
    spec error for the whole filter spec or an invalid-level-spec error for a
    string that is none of the eleven names, and which of them is decided by
    the first piece that is not accepted: when that piece does not split into
    exactly two parts at the colons, the invalid-filter-spec error for the
    whole filter spec; when it splits into two parts and the second is none
    of the eleven names, the invalid-level-spec error for that second part.
    When the filter spec is accepted and the default level spec is none of
    the eleven names, the error is the invalid-level-spec error for the
    default level spec. *)
Theorem setupFilters_succeeds_iff (a_filterSpec a_defaultLevelSpec : string)
        (self : CLogChannelRegistrySingleton) :
  ((setupFilters a_filterSpec a_defaultLevelSpec self).1 = Ok tt <->
   (a_filterSpec = "" \/ Forall accepted_pair (split a_filterSpec ",")) /\
   a_defaultLevelSpec ∈ level_human_strings) /\
  (forall e : exception,
      (setupFilters a_filterSpec a_defaultLevelSpec self).1 = Throw e ->
      e = InvalidFilterSpec a_filterSpec \/
      exists level_str : string,
        (level_str ∉ level_human_strings) /\ e = InvalidLevelSpec level_str) /\
  (forall (good rest : list string) (bad : string),
      a_filterSpec <> "" ->
      split a_filterSpec "," = good ++ bad :: rest ->
      Forall accepted_pair good ->
      (length (split bad ":") <> 2%nat ->
       (setupFilters a_filterSpec a_defaultLevelSpec self).1
       = Throw (InvalidFilterSpec a_filterSpec)) /\
      (forall ch level_str : string,
          split bad ":" = [ch; level_str] ->
          level_str ∉ level_human_strings ->
          (setupFilters a_filterSpec a_defaultLevelSpec self).1
          = Throw (InvalidLevelSpec level_str))) /\
  (a_filterSpec = "" \/ Forall accepted_pair (split a_filterSpec ",") ->
   a_defaultLevelSpec ∉ level_human_strings ->
   (setupFilters a_filterSpec a_defaultLevelSpec self).1
   = Throw (InvalidLevelSpec a_defaultLevelSpec)).
Proof.
  destruct (setupFilters_outcome a_filterSpec a_defaultLevelSpec self) as [Hiff Hkinds].
  split; [exact Hiff|]. split; [exact Hkinds|]. split.
  - intros good rest bad Hne Hsplit Hgood. split.
    + intros Hparts.
      rewrite (setupFilters_first_refused _ _ _ good rest bad (InvalidFilterSpec a_filterSpec));
        [done..|].
      intros out. by apply parseFilterPair_not_two_parts.
    + intros ch level_str Hparts Hnot.
      rewrite (setupFilters_first_refused _ _ _ good rest bad (InvalidLevelSpec level_str));
        [done..|].
      intros out. by eapply parseFilterPair_unknown_level.
  - intros Hspec Hnot. apply parseFilterSpec_Ok_iff in Hspec as [filters Hparse].
    by rewrite (setupFilters_bad_default_level _ _ _ filters
                  (InvalidLevelSpec a_defaultLevelSpec) Hparse (ParseLevel_unknown _ Hnot)).
Qed.

Lemma setupFilters_succeeds_iff_witness :
  (setupFilters "APP:info,DB:debug2:" "error" instance).1 = Ok tt.
Proof.
  destruct (setupFilters_succeeds_iff "APP:info,DB:debug2:" "error" instance)
    as [[_ Hreturns] _].
  apply Hreturns. split.
  - right. change (split "APP:info,DB:debug2:" ",") with ["APP:info"; "DB:debug2:"].
    repeat constructor.
    + exists "APP", info. split; [cbn; repeat split; discriminate|by left].
    + exists "DB", debug2. split; [cbn; repeat split; discriminate|by right].
  - apply (LevelToHumanString_in_table error).
Defined.

(** C3, an input the statement of the specification fails at: a filter spec
    whose only pair has an empty channel part is accepted; the call returns
    normally and binds the empty channel name to the level. *)
Lemma setupFilters_accepts_empty_channel :
  split ":info" ":" = [""; "info"] /\
  (setupFilters ":info" "error" instance).1 = Ok tt /\
  m_filters (setupFilters ":info" "error" instance).2 !! "" = Some info.
Proof. repeat split; vm_compute; reflexivity. Qed.

(** ** The formatters *)

Section Formatters.
Context `{Runtime}.

Lemma entryObject_other_keys (registry : CLogChannelRegistrySingleton)
      (a_entry : CLogEntry) (k : string) :
  k ∉ json_fixed_keys ->
  CJSONLogFormatter.entryObject registry a_entry !! k = mapData a_entry !! k.
Proof.
  unfold json_fixed_keys. rewrite !not_elem_of_cons.
  intros (? & ? & ? & ? & ? & ? & ? & _).
  unfold CJSONLogFormatter.entryObject.
  destruct (String.eqb (message a_entry) ""), (threadIDEnabled registry),
    (String.eqb (serviceName a_entry) "");
    by rewrite ?lookup_insert_ne by done.
Qed.

Lemma entryObject_fixed_fields (registry : CLogChannelRegistrySingleton)
      (a_entry : CLogEntry) :
  let j := CJSONLogFormatter.entryObject registry a_entry in
  j !! "channel" = Some (JString (channel a_entry)) /\
  j !! "level_str" = Some (JString (LevelToHumanString (level a_entry))) /\
  j !! "timestamp" = Some (JString (timestamp a_entry)) /\
  j !! "num_indent" = Some (JNumber (nIndent a_entry)).
Proof.
  unfold CJSONLogFormatter.entryObject.
  destruct (String.eqb (message a_entry) ""), (threadIDEnabled registry),
    (String.eqb (serviceName a_entry) "");
    cbv zeta; repeat split;
    by repeat first [rewrite lookup_insert_eq | rewrite lookup_insert_ne by done].
Qed.

Lemma entryObject_conditional_fields (registry : CLogChannelRegistrySingleton)
      (a_entry : CLogEntry) :
  let j := CJSONLogFormatter.entryObject registry a_entry in
  j !! "message" = (if String.eqb (message a_entry) "" then mapData a_entry !! "message"
                    else Some (JString (message a_entry))) /\
  j !! "thread_id" = (if threadIDEnabled registry
                      then Some (JString (thread_id_to_stream (threadId a_entry)))
                      else mapData a_entry !! "thread_id") /\
  j !! "service_name" = (if String.eqb (serviceName a_entry) ""
                         then mapData a_entry !! "service_name"
                         else Some (JString (serviceName a_entry))).
Proof.
  unfold CJSONLogFormatter.entryObject.
  destruct (String.eqb (message a_entry) ""), (threadIDEnabled registry),
    (String.eqb (serviceName a_entry) "");
    cbv zeta; repeat split;
    by repeat first [rewrite lookup_insert_eq | rewrite lookup_insert_ne by done].
Qed.

(** C6, as the code has it. The JSON formatter returns exactly one string:
    the serialisation of one object followed by a newline. The object holds
    [channel], [level_str] (the lowercase full name of the level),
    [timestamp] and [num_indent] from the entry, and every key of the
    metadata map that is none of the seven keys the formatter may assign, with
    the map's value. It has a [message] key exactly when the message is not
    empty or the map has one (the entry's message when that is not empty); a
    [thread_id] key exactly when the registry's thread-id flag is set or the
    map has one; a [service_name] key exactly when the entry's service name
    is not empty or the map has one. Where the formatter does not assign one
    of these three keys (empty message, flag clear, empty service name), the
    object has for it what the map has, no entry when the map has none. *)
Theorem CJSONLogFormatter_formatEntry_one_object
        (registry : CLogChannelRegistrySingleton) (a_entry : CLogEntry) :
  let j := CJSONLogFormatter.entryObject registry a_entry in
  CJSONLogFormatter.formatEntry registry a_entry = [json_dump j +:+ endl] /\
  length (CJSONLogFormatter.formatEntry registry a_entry) = 1%nat /\
  j !! "channel" = Some (JString (channel a_entry)) /\
  j !! "level_str" = Some (JString (LevelToHumanString (level a_entry))) /\
  LevelToHumanString (level a_entry) ∈ level_human_strings /\
  j !! "timestamp" = Some (JString (timestamp a_entry)) /\
  j !! "num_indent" = Some (JNumber (nIndent a_entry)) /\
  (forall k : string, k ∉ json_fixed_keys -> j !! k = mapData a_entry !! k) /\
  (is_Some (j !! "message") <->
   message a_entry <> "" \/ is_Some (mapData a_entry !! "message")) /\
  (message a_entry <> "" -> j !! "message" = Some (JString (message a_entry))) /\
  (is_Some (j !! "thread_id") <->
   threadIDEnabled registry = true \/ is_Some (mapData a_entry !! "thread_id")) /\
  (threadIDEnabled registry = true ->
   j !! "thread_id" = Some (JString (thread_id_to_stream (threadId a_entry)))) /\
  (is_Some (j !! "service_name") <->
   serviceName a_entry <> "" \/ is_Some (mapData a_entry !! "service_name")) /\
  (serviceName a_entry <> "" ->
   j !! "service_name" = Some (JString (serviceName a_entry))) /\
  (message a_entry = "" -> j !! "message" = mapData a_entry !! "message") /\
  (threadIDEnabled registry = false ->
   j !! "thread_id" = mapData a_entry !! "thread_id") /\
  (serviceName a_entry = "" ->
   j !! "service_name" = mapData a_entry !! "service_name").
Proof.
  intros j.
  destruct (entryObject_fixed_fields registry a_entry) as (Hch & Hlv & Hts & Hni).
  destruct (entryObject_conditional_fields registry a_entry) as (Hmsg & Htid & Hsvc).
  fold j in Hch, Hlv, Hts, Hni, Hmsg, Htid, Hsvc.
  split; [reflexivity|]. split; [reflexivity|].
  do 2 (split; [assumption|]). split; [apply LevelToHumanString_in_table|].
  do 2 (split; [assumption|]).
  split; [apply entryObject_other_keys|].
  rewrite Hmsg, Htid, Hsvc.
  destruct (String.eqb_spec (message a_entry) ""),
    (threadIDEnabled registry), (String.eqb_spec (serviceName a_entry) "");
    repeat split; try done; try (intros [?|?]; done); try (right; done);
    try (left; done); intros ?; by eexists.
Qed.


End Formatters.

Lemma CJSONLogFormatter_formatEntry_one_object_witness :
  @CJSONLogFormatter.entryObject demo_runtime instance demo_entry !! "k"
  = mapData demo_entry !! "k" /\
  @CJSONLogFormatter.entryObject demo_runtime instance demo_entry !! "message"
  = Some (JString "x").
Proof.
  destruct (@CJSONLogFormatter_formatEntry_one_object demo_runtime instance demo_entry)
    as (_ & _ & _ & _ & _ & _ & _ & Hother & _ & Hmessage & _).
  split.
  - apply Hother. unfold json_fixed_keys.
    rewrite !not_elem_of_cons. repeat (split; [discriminate|]). apply not_elem_of_nil.
  - apply Hmessage. discriminate.
Defined.

(** C6, an entry the statement of the specification fails at: logged
    through [ALOG_MAP], so with an empty message, with a map that has a
    [message] key; the object of the JSON formatter has that key. *)
Lemma CJSONLogFormatter_message_key_from_map :
  message map_only_entry = "" /\
  @CJSONLogFormatter.entryObject demo_runtime instance map_only_entry !! "message"
  = Some (JString "from the map").
Proof. split; vm_compute; reflexivity. Qed.

(** The example of the specification: channel [APP], level [warning],
    message [x], map [{k: 1}], indent 0, no service name. *)
Lemma CJSONLogFormatter_example :
  @CJSONLogFormatter.formatEntry demo_runtime instance demo_entry
  = [ "{" +:+ dquote +:+ "channel" +:+ dquote +:+ ":" +:+ dquote +:+ "APP" +:+ dquote
      +:+ "," +:+ dquote +:+ "k" +:+ dquote +:+ ":1"
      +:+ "," +:+ dquote +:+ "level_str" +:+ dquote +:+ ":" +:+ dquote +:+ "warning" +:+ dquote
      +:+ "," +:+ dquote +:+ "message" +:+ dquote +:+ ":" +:+ dquote +:+ "x" +:+ dquote
      +:+ "," +:+ dquote +:+ "num_indent" +:+ dquote +:+ ":0"
      +:+ "," +:+ dquote +:+ "timestamp" +:+ dquote +:+ ":" +:+ dquote
      +:+ demo_timestamp +:+ dquote +:+ "}" +:+ endl ].
Proof. vm_compute. reflexivity. Qed.



(** ** Indentation *)

Lemma unsigned_wrap_small (n : Z) : 0 <= n <= UINT_MAX -> unsigned_wrap n = n.
Proof. intros Hn. unfold unsigned_wrap. apply Z.mod_small. unfold UINT_MAX in *. lia. Qed.

Lemma unsigned_wrap_range (n : Z) : 0 <= unsigned_wrap n <= UINT_MAX.
Proof.
  unfold unsigned_wrap.
  pose proof (Z.mod_pos_bound n (UINT_MAX + 1)) as Hb. unfold UINT_MAX in *. lia.
Qed.

(** The caller's depth after one call is [depth_step] of its depth before. *)
Lemma getIndent_addIndent (tid : TThreadID) (self : CLogChannelRegistrySingleton) :
  getIndent tid (addIndent tid self) = depth_step (getIndent tid self) AddIndent.
Proof.
  unfold getIndent, addIndent.
  destruct (m_indents self !! tid) as [second|]; cbn; by rewrite lookup_insert_eq.
Qed.

Lemma getIndent_removeIndent (tid : TThreadID) (self : CLogChannelRegistrySingleton) :
  getIndent tid (removeIndent tid self) = depth_step (getIndent tid self) RemoveIndent.
Proof.
  unfold getIndent, removeIndent. cbn.
  destruct (m_indents self !! tid) as [second|] eqn:Hfind; [|by rewrite !Hfind].
  destruct (Z.ltb_spec 0 second) as [Hpos|Hnot].
  - rewrite lookup_insert_eq.
    destruct (Z.eqb_spec (second - 1) 0) as [Hzero|Hnz].
    + rewrite lookup_delete_eq. lia.
    + by rewrite lookup_insert_eq.
  - rewrite Hfind. destruct (Z.eqb_spec second 0) as [->|Hnz].
    + by rewrite lookup_delete_eq.
    + by rewrite Hfind.
Qed.

(** The depth of a thread is not changed by the calls of another thread. *)
Lemma getIndent_addIndent_other (tid tid' : TThreadID) (self : CLogChannelRegistrySingleton) :
  tid' <> tid -> getIndent tid (addIndent tid' self) = getIndent tid self.
Proof.
  intros Hne. unfold getIndent, addIndent.
  destruct (m_indents self !! tid'); cbn; by rewrite lookup_insert_ne.
Qed.

Lemma getIndent_removeIndent_other (tid tid' : TThreadID)
      (self : CLogChannelRegistrySingleton) :
  tid' <> tid -> getIndent tid (removeIndent tid' self) = getIndent tid self.
Proof.
  intros Hne. unfold getIndent, removeIndent. cbn.
  assert (forall m : ThreadIndentMap,
             match m !! tid' with
             | Some second => if second =? 0 then delete tid' m else m
             | None => m
             end !! tid = m !! tid) as Herase.
  { intros m. destruct (m !! tid') as [second|]; [|done].
    destruct (second =? 0); [by rewrite lookup_delete_ne|done]. }
  rewrite Herase.
  destruct (m_indents self !! tid') as [second|]; [|done].
  destruct (0 <? second); [by rewrite lookup_insert_ne|done].
Qed.

Lemma getIndent_run_indent_call (tid : TThreadID) (self : CLogChannelRegistrySingleton)
      (call : TThreadID * IndentCall) :
  getIndent tid (run_indent_call self call)
  = if decide (call.1 = tid) then depth_step (getIndent tid self) call.2
    else getIndent tid self.
Proof.
  destruct call as [tid' [|]]; unfold run_indent_call; cbn;
    destruct (decide (tid' = tid)) as [->|Hne];
    auto using getIndent_addIndent, getIndent_removeIndent,
               getIndent_addIndent_other, getIndent_removeIndent_other.
Qed.

(** After any sequence of calls by any threads, the depth of a thread is
    its depth before, stepped through its own calls. *)
Lemma getIndent_run_indent_calls (tid : TThreadID) (calls : list (TThreadID * IndentCall))
      (self : CLogChannelRegistrySingleton) :
  getIndent tid (run_indent_calls calls self)
  = foldl depth_step (getIndent tid self) (calls_of tid calls).
Proof.
  unfold run_indent_calls, calls_of. revert self.
  induction calls as [|call calls IH]; intros self; [done|].
  cbn [foldl omap list_omap]. rewrite IH, getIndent_run_indent_call.
  by destruct (decide (call.1 = tid)).
Qed.

Lemma depth_step_range (d : Z) (call : IndentCall) :
  0 <= d <= UINT_MAX -> 0 <= depth_step d call <= UINT_MAX.
Proof.
  intros Hd. destruct call; cbn.
  - apply unsigned_wrap_range.
  - destruct (Z.ltb_spec 0 d); lia.
Qed.

Lemma depth_steps_range (d : Z) (calls : list IndentCall) :
  0 <= d <= UINT_MAX -> 0 <= foldl depth_step d calls <= UINT_MAX.
Proof.
  revert d. induction calls as [|call calls IH]; intros d Hd; [done|].
  cbn. by apply IH, depth_step_range.
Qed.

Lemma depth_steps_add (d : Z) (n : nat) :
  0 <= d -> d + Z.of_nat n <= UINT_MAX ->
  foldl depth_step d (replicate n AddIndent) = d + Z.of_nat n.
Proof.
  revert d. induction n as [|n IH]; intros d Hd Hmax; cbn [replicate foldl]; [lia|].
  unfold depth_step at 2. rewrite unsigned_wrap_small by lia.
  rewrite IH by lia. lia.
Qed.

Lemma depth_steps_remove (d : Z) (n : nat) :
  Z.of_nat n <= d ->
  foldl depth_step d (replicate n RemoveIndent) = d - Z.of_nat n.
Proof.
  revert d. induction n as [|n IH]; intros d Hd; cbn [replicate foldl]; [lia|].
  unfold depth_step at 2. destruct (Z.ltb_spec 0 d); [|lia].
  rewrite IH by lia. lia.
Qed.

Lemma depth_steps_balanced (d : Z) (n : nat) :
  0 <= d -> d + Z.of_nat n <= UINT_MAX ->
  foldl depth_step d (replicate n AddIndent ++ replicate n RemoveIndent) = d.
Proof.
  intros Hd Hmax. rewrite foldl_app, depth_steps_add by done.
  rewrite depth_steps_remove by lia. lia.
Qed.

Lemma calls_of_replicate (tid : TThreadID) (n : nat) (call : IndentCall) :
  calls_of tid (replicate n (tid, call)) = replicate n call.
Proof.
  unfold calls_of. induction n as [|n IH]; [done|].
  cbn [replicate omap list_omap]. cbn [fst snd].
  rewrite decide_True by done. by rewrite IH.
Qed.

(** The counters stay values of their type. *)
Lemma getIndent_range (tid : TThreadID) (self : CLogChannelRegistrySingleton) :
  indents_in_range self -> 0 <= getIndent tid self <= UINT_MAX.
Proof.
  intros Hrange. unfold getIndent.
  destruct (m_indents self !! tid) as [second|] eqn:Hfind; [by eapply Hrange|].
  unfold UINT_MAX. lia.
Qed.

Lemma indents_in_range_instance : indents_in_range instance.
Proof. intros tid n. cbn. by rewrite lookup_empty. Qed.

Lemma indents_in_range_reset (self : CLogChannelRegistrySingleton) :
  indents_in_range (reset self).
Proof. intros tid n. cbn. by rewrite lookup_empty. Qed.

Lemma indents_in_range_addIndent (tid : TThreadID) (self : CLogChannelRegistrySingleton) :
  indents_in_range self -> indents_in_range (addIndent tid self).
Proof.
  intros Hrange tid' n. unfold addIndent.
  destruct (m_indents self !! tid) as [second|] eqn:Hfind; cbn;
    (destruct (decide (tid = tid')) as [->|Hne];
     [rewrite lookup_insert_eq; intros [= <-]|rewrite lookup_insert_ne by done; apply Hrange]).
  - apply unsigned_wrap_range.
  - unfold UINT_MAX. lia.
Qed.

Lemma indents_in_range_removeIndent (tid : TThreadID) (self : CLogChannelRegistrySingleton) :
  indents_in_range self -> indents_in_range (removeIndent tid self).
Proof.
  intros Hrange tid' n Hfind'.
  destruct (decide (tid = tid')) as [->|Hne].
  - pose proof (getIndent_removeIndent tid' self) as Hstep.
    unfold getIndent at 1 in Hstep. rewrite Hfind' in Hstep. subst n.
    apply depth_step_range, getIndent_range, Hrange.
  - pose proof (getIndent_removeIndent_other tid' tid self Hne) as Hsame.
    unfold getIndent in Hsame. rewrite Hfind' in Hsame.
    destruct (m_indents self !! tid') as [second|] eqn:Hfind.
    + subst n. by eapply Hrange.
    + subst n. unfold UINT_MAX. lia.
Qed.

(** C8, as the code has it. From a registry whose counters are in the range
    of [unsigned]: after any sequence of indent calls, by any threads, the
    depth of every thread is between 0 and [UINT_MAX]; [removeIndent] at
    depth 0 leaves the depth at 0; and when the calls of a thread are [n]
    times [addIndent] followed by [n] times [removeIndent], with other
    threads' calls in between, its depth at the end is its depth at the
    start, provided that depth plus [n] is at most [UINT_MAX]. *)
Theorem indent_depth_balanced (self : CLogChannelRegistrySingleton) (tid : TThreadID)
        (calls : list (TThreadID * IndentCall)) (n : nat) :
  indents_in_range self ->
  0 <= getIndent tid (run_indent_calls calls self) <= UINT_MAX /\
  (getIndent tid (run_indent_calls calls self) = 0 ->
   getIndent tid (removeIndent tid (run_indent_calls calls self)) = 0) /\
  (calls_of tid calls = replicate n AddIndent ++ replicate n RemoveIndent ->
   getIndent tid self + Z.of_nat n <= UINT_MAX ->
   getIndent tid (run_indent_calls calls self) = getIndent tid self).
Proof.
  intros Hrange. pose proof (getIndent_range tid self Hrange) as Hd.
  split; [|split].
  - rewrite getIndent_run_indent_calls. by apply depth_steps_range.
  - intros Hzero. by rewrite getIndent_removeIndent, Hzero.
  - intros Hcalls Hmax. rewrite getIndent_run_indent_calls, Hcalls.
    apply depth_steps_balanced; lia.
Qed.

Lemma indent_depth_balanced_witness :
  getIndent 3%nat
    (run_indent_calls [(3%nat, AddIndent); (5%nat, AddIndent); (3%nat, AddIndent);
                       (5%nat, RemoveIndent); (3%nat, RemoveIndent);
                       (5%nat, RemoveIndent); (3%nat, RemoveIndent)]
                      (addIndent 3%nat instance))
  = getIndent 3%nat (addIndent 3%nat instance).
Proof.
  apply (indent_depth_balanced (addIndent 3%nat instance) 3%nat _ 2%nat).
  - apply indents_in_range_addIndent, indents_in_range_instance.
  - reflexivity.
  - vm_compute. discriminate.
Defined.

Lemma getIndent_deepest (tid : TThreadID) : getIndent tid (deepest tid) = UINT_MAX.
Proof.
  unfold deepest. rewrite getIndent_run_indent_calls, calls_of_replicate.
  change (getIndent tid instance) with 0.
  rewrite depth_steps_add; rewrite ?Z2Nat.id; unfold UINT_MAX; lia.
Qed.

(** C8, an input the statement of the specification fails at: at depth
    [UINT_MAX], one [addIndent] followed by one [removeIndent] leaves the
    depth at 0, since the increment wraps. *)
Lemma indent_not_restored_at_UINT_MAX :
  getIndent 0%nat (deepest 0%nat) = 4294967295 /\
  getIndent 0%nat
    (run_indent_calls [(0%nat, AddIndent); (0%nat, RemoveIndent)] (deepest 0%nat)) = 0.
Proof.
  split; [apply getIndent_deepest|].
  rewrite getIndent_run_indent_calls, getIndent_deepest. reflexivity.
Qed.

(** ** [log] *)

Section Log.
Context `{Runtime}.

(** Without a formatter [log] writes nothing; without a sink it formats and
    writes nothing. *)
Lemma log_no_formatter (tid : TThreadID) (now a_channel : string) (a_level : ELogLevels)
      (a_msg : string) (a_mapData : TObject) (self : CLogChannelRegistrySingleton) :
  m_formatter self = None ->
  log tid now a_channel a_level a_msg a_mapData self = [].
Proof. intros Hnull. unfold log. by rewrite Hnull. Qed.

Lemma log_no_sinks (tid : TThreadID) (now a_channel : string) (a_level : ELogLevels)
      (a_msg : string) (a_mapData : TObject) (self : CLogChannelRegistrySingleton) :
  m_sinks self = [] ->
  log tid now a_channel a_level a_msg a_mapData self = [].
Proof.
  intros Hnone. unfold log. destruct (m_formatter self) as [f|]; [|done].
  rewrite Hnone. cbn. induction (formatEntry f self _) as [|line lines IH]; [done|].
  cbn. exact IH.
Qed.

(** [log] does not consult the filter: what it writes is the same whatever
    the filter table and the default level are. *)
Lemma log_does_not_filter (tid : TThreadID) (now a_channel : string) (a_level : ELogLevels)
      (a_msg : string) (a_mapData : TObject) (self : CLogChannelRegistrySingleton)
      (filters : FilterMap) (l : ELogLevels) :
  log tid now a_channel a_level a_msg a_mapData
      (set_m_defaultLevel l (set_m_filters filters self))
  = log tid now a_channel a_level a_msg a_mapData self.
Proof. reflexivity. Qed.

End Log.

(** ** Examples *)

Example split_examples :
  split "a:b" ":" = ["a"; "b"] /\
  split "A:" ":" = ["A"] /\
  split "A::" ":" = ["A"; ""] /\
  split "A:info:" ":" = ["A"; "info"] /\
  split "A:b:c" ":" = ["A"; "b"; "c"] /\
  split "" "," = [] /\
  split "," "," = [""] /\
  split "a,,b," "," = ["a"; ""; "b"].
Proof. repeat split. Qed.

Example setupFilters_examples :
  (setupFilters "A:" "info" instance).1 = Throw (InvalidFilterSpec "A:") /\
  (setupFilters "A:b:c" "info" instance).1 = Throw (InvalidFilterSpec "A:b:c") /\
  (setupFilters "A:info,,B:debug" "info" instance).1
  = Throw (InvalidFilterSpec "A:info,,B:debug") /\
  (setupFilters "A:loud" "info" instance).1 = Throw (InvalidLevelSpec "loud") /\
  (setupFilters "A::" "info" instance).1 = Throw (InvalidLevelSpec "") /\
  (setupFilters "A:info:,B:debug," "info" instance).1 = Ok tt /\
  m_filters (setupFilters "" "debug" instance).2 = {[ "" := off ]}.
Proof. repeat split; vm_compute; reflexivity. Qed.

(** The end-to-end example of the specification: after
    [Setup("error", "APP:info")], with one sink and the JSON formatter, a
    message at [info] on [APP] is written and one on [OTHER] is not. *)
Example end_to_end :
  let configured :=
    setFormatter (Some JSONLogFormatter)
                 (addSink 1%nat (setupFilters "APP:info" "error" instance).2) in
  filter "APP" info configured = Ok true /\
  filter "OTHER" info configured = Ok false /\
  @ALOG_LEVEL_IMPL demo_runtime 7%nat demo_timestamp "OTHER" info "hello" ∅ configured
  = Ok [] /\
  @ALOG_LEVEL_IMPL demo_runtime 7%nat demo_timestamp "APP" warning "x"
                   {[ "k" := JNumber 1 ]} configured
  = Ok (map (fun line => (1%nat, line))
            (@CJSONLogFormatter.formatEntry demo_runtime instance demo_entry)).
Proof. repeat split; vm_compute; reflexivity. Qed.

(** * More of the code *)

(** ** [split] and [join] *)

Lemma str_length_app (s t : string) :
  String.length (s +:+ t) = (String.length s + String.length t)%nat.
Proof.
  induction s as [|c s IH]; [done|]. rewrite str_app_cons. cbn. by rewrite IH.
Qed.

Lemma join_cons_cons (delim : ascii) (a y : string) (more : list string) :
  join delim (a :: y :: more) = a +:+ String delim (join delim (y :: more)).
Proof. reflexivity. Qed.

Lemma ends_with_free (delim : ascii) (s : string) :
  free_of delim s -> ends_with delim s = false.
Proof.
  induction s as [|c s IH]; [done|]. intros [Hc Hfree]. cbn.
  destruct s; [by apply Ascii.eqb_neq|by apply IH].
Qed.

Lemma ends_with_app_delim (delim : ascii) (a b : string) :
  ends_with delim (a +:+ String delim b)
  = if String.eqb b "" then true else ends_with delim b.
Proof.
  induction a as [|c a IH].
  - rewrite str_app_nil_l. cbn. destruct b; [apply Ascii.eqb_refl|done].
  - rewrite str_app_cons. cbn [ends_with]. rewrite IH.
    by destruct a; [rewrite str_app_nil_l|rewrite str_app_cons].
Qed.

(** What [split] loses: one final delimiter, and nothing else. *)
Lemma split_join_exact (delim : ascii) (s : string) :
  s = join delim (split s delim)
      +:+ (if ends_with delim s then String delim "" else "").
Proof.
  remember (String.length s) as n eqn:Hn. revert s Hn.
  induction n as [n IH] using lt_wf_ind. intros s ->.
  destruct (first_delim delim s) as [Hfree|(a & b & Ha & ->)].
  - rewrite ends_with_free, split_free by done.
    destruct (String.eqb_spec s "") as [->|]; [done|]. cbn. by rewrite str_app_nil_r.
  - rewrite ends_with_app_delim, split_delim by done.
    destruct (String.eqb_spec b "") as [->|Hb]; [done|].
    assert (String.length b < String.length (a +:+ String delim b))%nat as Hshorter.
    { rewrite str_length_app. cbn. lia. }
    pose proof (IH _ Hshorter b eq_refl) as Hrec.
    destruct (split b delim) as [|y more] eqn:Hsplit.
    { by apply split_nil_inv in Hsplit. }
    rewrite join_cons_cons, str_app_assoc, str_app_cons. by rewrite <- Hrec.
Qed.

Lemma split_final_delim (delim : ascii) (s : string) :
  s <> "" -> ends_with delim s = false ->
  split (s +:+ String delim "") delim = split s delim.
Proof.
  remember (String.length s) as n eqn:Hn. revert s Hn.
  induction n as [n IH] using lt_wf_ind. intros s -> Hne Hend.
  destruct (first_delim delim s) as [Hfree|(a & b & Ha & ->)].
  - rewrite split_delim, !split_free by done.
    by destruct (String.eqb_spec s "").
  - rewrite ends_with_app_delim in Hend.
    destruct (String.eqb_spec b "") as [|Hb]; [done|].
    rewrite str_app_assoc, str_app_cons.
    rewrite (split_delim delim a b), (split_delim delim a (b +:+ String delim "")) by done.
    f_equal.
    apply (IH (String.length b)); [|done..].
    rewrite str_length_app. cbn. lia.
Qed.

(** X1. No piece of [split s delim] contains the delimiter, and the pieces
    joined with the delimiter give [s] back, up to one final delimiter that
    [split] drops: the join is [s] when [s] does not end with the delimiter,
    and [s] without its last character when it does. So a string that is not
    empty and does not end with the delimiter splits into the same pieces
    with and without one delimiter added at its end. *)
Theorem split_join (delim : ascii) (s : string) :
  Forall (free_of delim) (split s delim) /\
  (s = join delim (split s delim) \/
   s = join delim (split s delim) +:+ String delim "") /\
  (ends_with delim s = false -> s = join delim (split s delim)) /\
  (ends_with delim s = true -> s = join delim (split s delim) +:+ String delim "") /\
  (s <> "" -> ends_with delim s = false ->
   split (s +:+ String delim "") delim = split s delim).
Proof.
  pose proof (split_join_exact delim s) as Hexact.
  split; [apply Forall_forall; intros piece; apply split_pieces_free|].
  split; [|split; [|split]].
  - destruct (ends_with delim s); [by right|left]. by rewrite str_app_nil_r in Hexact.
  - intros Hend. rewrite Hend in Hexact. by rewrite str_app_nil_r in Hexact.
  - intros Hend. by rewrite Hend in Hexact.
  - apply split_final_delim.
Qed.

Lemma split_join_witness :
  split "a,b," "," = split "a,b" "," /\
  "a,b," = join "," (split "a,b," ",") +:+ ",".
Proof.
  destruct (split_join "," "a,b") as (_ & _ & _ & _ & Hfinal).
  destruct (split_join "," "a,b,") as (_ & _ & _ & Hends & _).
  split; [apply Hfinal; [discriminate|reflexivity]|apply Hends; reflexivity].
Defined.

(** The inverse direction, as the later proofs use it. *)
Lemma split_of_join_pieces (delim : ascii) (pieces : list string) :
  Forall (free_of delim) pieces ->
  last pieces <> Some "" ->
  split (join delim pieces) delim = pieces.
Proof.
  induction pieces as [|piece more IH]; intros Hfree Hlast; [done|].
  apply Forall_cons in Hfree as [Hpiece Hmore].
  destruct more as [|piece' more'].
  - cbn. rewrite split_free by done.
    destruct (String.eqb_spec piece "") as [->|]; [by destruct Hlast|done].
  - cbn [join]. fold (join delim (piece' :: more')).
    rewrite split_delim by done. f_equal. apply IH; [done|].
    by rewrite last_cons_cons in Hlast.
Qed.

(** X2. Pieces without the delimiter, the last of them not empty, are what
    [split] returns for their join. *)
Theorem split_of_join (delim : ascii) (pieces : list string) :
  Forall (free_of delim) pieces ->
  last pieces <> Some "" ->
  split (join delim pieces) delim = pieces.
Proof. apply split_of_join_pieces. Qed.

Lemma split_of_join_witness :
  split (join "," ["APP:info"; ""; "DB:debug"]) "," = ["APP:info"; ""; "DB:debug"].
Proof.
  apply (split_of_join "," ["APP:info"; ""; "DB:debug"]).
  - repeat constructor; discriminate.
  - discriminate.
Defined.

(** ** More on [parseFilterSpec] and [setupFilters] *)

Lemma LevelToHumanString_free_comma (l : ELogLevels) : free_of "," (LevelToHumanString l).
Proof. destruct l; cbn; repeat split; discriminate. Qed.

Lemma print_pair_free_comma (p : string * ELogLevels) :
  free_of "," p.1 -> free_of "," (print_pair p).
Proof.
  intros Hch. unfold print_pair. rewrite !free_of_app.
  split; [done|]. split; [cbn; split; [discriminate|done]|].
  apply LevelToHumanString_free_comma.
Qed.

Lemma print_pair_nonempty (p : string * ELogLevels) : print_pair p <> "".
Proof.
  unfold print_pair. intros [_ Hrest]%str_app_eq_nil. discriminate Hrest.
Qed.

Lemma parseFilterPair_print (a_spec : string) (out : FilterMap)
      (p : string * ELogLevels) :
  free_of ":" p.1 ->
  parseFilterPair a_spec out (print_pair p) = Ok (<[p.1 := p.2]> out).
Proof.
  intros Hch. apply parseFilterPair_Ok_iff. exists p.1, p.2. by auto.
Qed.

Lemma parseFilterPairs_print (a_spec : string) (pairs : list (string * ELogLevels))
      (out : FilterMap) :
  Forall (fun p => free_of ":" p.1) pairs ->
  parseFilterPairs a_spec out (print_pair <$> pairs)
  = Ok (foldl (fun out p => <[p.1 := p.2]> out) out pairs).
Proof.
  revert out. induction pairs as [|p pairs IH]; intros out Hfree; [done|].
  apply Forall_cons in Hfree as [Hp Hfree].
  cbn [fmap list_fmap parseFilterPairs foldl].
  rewrite parseFilterPair_print by done. cbn. by apply IH.
Qed.

Lemma join_nonempty (delim : ascii) (piece : string) (more : list string) :
  piece <> "" -> join delim (piece :: more) <> "".
Proof.
  intros Hne. destruct more; cbn [join]; [done|].
  by intros [? _]%str_app_eq_nil.
Qed.

Lemma parseFilterSpec_print (pairs : list (string * ELogLevels)) :
  pairs <> [] ->
  Forall (fun p => free_of ":" p.1 /\ free_of "," p.1) pairs ->
  parseFilterSpec (print_filter_spec pairs) = Ok (table_of pairs).
Proof.
  intros Hne Hfree. unfold parseFilterSpec, print_filter_spec.
  destruct (String.eqb_spec (join "," (print_pair <$> pairs)) "") as [Hempty|_].
  { destruct pairs as [|p pairs]; [done|].
    by apply join_nonempty in Hempty; [|apply print_pair_nonempty]. }
  rewrite split_of_join_pieces.
  - apply parseFilterPairs_print. eapply Forall_impl; [exact Hfree|]. by intros ? [? _].
  - apply Forall_fmap. eapply Forall_impl; [exact Hfree|].
    intros p [_ Hcomma]. by apply print_pair_free_comma.
  - rewrite fmap_last. destruct (last pairs) as [p|]; [|done].
    cbn. intros [= Hp]. by apply print_pair_nonempty in Hp.
Qed.

Lemma table_of_lookup (pairs : list (string * ELogLevels)) (a_channel : string) :
  table_of pairs !! a_channel = last (levels_for a_channel pairs).
Proof.
  unfold table_of, levels_for.
  induction pairs as [|p pairs IH] using rev_ind; [done|].
  rewrite foldl_snoc, omap_app. cbn.
  destruct (decide (p.1 = a_channel)) as [<-|Hne].
  - by rewrite lookup_insert_eq, last_snoc.
  - by rewrite lookup_insert_ne, app_nil_r.
Qed.

(** X3. A filter spec written as [CH1:level1,CH2:level2,...], from at least
    one pair whose channels hold neither a colon nor a comma, and the name of
    a default level: [setupFilters] returns normally, stores that default
    level and stores the table in which a channel has the level of its last
    pair and a channel without a pair has no entry. *)
Theorem setupFilters_print_roundtrip (pairs : list (string * ELogLevels))
        (d : ELogLevels) (self : CLogChannelRegistrySingleton) :
  pairs <> [] ->
  Forall (fun p => free_of ":" p.1 /\ free_of "," p.1) pairs ->
  setupFilters (print_filter_spec pairs) (LevelToHumanString d) self
  = (Ok tt, set_m_defaultLevel d (set_m_filters (table_of pairs) self)) /\
  (forall a_channel : string,
      table_of pairs !! a_channel = last (levels_for a_channel pairs)).
Proof.
  intros Hne Hfree. split; [|apply table_of_lookup].
  apply setupFilters_Ok; [by apply parseFilterSpec_print|].
  apply ParseLevel_LevelToHumanString.
Qed.

Lemma setupFilters_print_roundtrip_witness :
  setupFilters "APP:info,DB:debug,APP:error" "warning" instance
  = (Ok tt, set_m_defaultLevel warning
              (set_m_filters (table_of [("APP", info); ("DB", debug); ("APP", error)])
                             instance)).
Proof.
  apply (setupFilters_print_roundtrip
           [("APP", info); ("DB", debug); ("APP", error)] warning instance).
  - discriminate.
  - repeat constructor; discriminate.
Defined.

(** X4. The empty filter spec stores a table with one entry, the empty
    channel name at [off]: after [setupFilters("", d)] with a level name [d],
    [filter] is false for the channel [""] at every level, and compares with
    the default level for every other channel. *)
Theorem setupFilters_empty_spec (d : ELogLevels) (self : CLogChannelRegistrySingleton)
        (a_channel : string) (a_level : ELogLevels) :
  a_level <> off ->
  (setupFilters "" (LevelToHumanString d) self).1 = Ok tt /\
  filter "" a_level (setupFilters "" (LevelToHumanString d) self).2 = Ok false /\
  (a_channel <> "" ->
   filter a_channel a_level (setupFilters "" (LevelToHumanString d) self).2
   = Ok (level_ge d a_level)).
Proof.
  intros Hoff.
  rewrite (setupFilters_Ok "" (LevelToHumanString d) self {[ "" := off ]} d eq_refl
             (ParseLevel_LevelToHumanString d)).
  cbn [fst snd]. unfold filter. destruct (decide (a_level = off)) as [|_]; [done|].
  cbn. split; [done|]. split.
  - rewrite lookup_singleton_eq. by destruct a_level.
  - intros Hch. by rewrite lookup_singleton_ne.
Qed.

Lemma setupFilters_empty_spec_witness :
  filter "" fatal (setupFilters "" "debug4" instance).2 = Ok false /\
  filter "APP" fatal (setupFilters "" "debug4" instance).2 = Ok true.
Proof.
  destruct (setupFilters_empty_spec debug4 instance "APP" fatal) as (_ & Hempty & Hother);
    [discriminate|].
  split; [exact Hempty|]. apply Hother. discriminate.
Defined.

(** X5. Whatever its arguments and whether it returns or throws,
    [setupFilters] leaves the sinks, the formatter, the two flags, the service
    name, the indent counters and the metadata as they were. *)
Theorem setupFilters_frame (a_filterSpec a_defaultLevelSpec : string)
        (self : CLogChannelRegistrySingleton) :
  m_sinks (setupFilters a_filterSpec a_defaultLevelSpec self).2 = m_sinks self /\
  m_formatter (setupFilters a_filterSpec a_defaultLevelSpec self).2 = m_formatter self /\
  m_doThreadLog (setupFilters a_filterSpec a_defaultLevelSpec self).2 = m_doThreadLog self /\
  m_doMetadata (setupFilters a_filterSpec a_defaultLevelSpec self).2 = m_doMetadata self /\
  m_serviceName (setupFilters a_filterSpec a_defaultLevelSpec self).2 = m_serviceName self /\
  m_indents (setupFilters a_filterSpec a_defaultLevelSpec self).2 = m_indents self /\
  m_metadata (setupFilters a_filterSpec a_defaultLevelSpec self).2 = m_metadata self.
Proof.
  unfold setupFilters.
  destruct (parseFilterSpec a_filterSpec) as [filters|e]; [|done].
  by destruct (ParseLevel a_defaultLevelSpec).
Qed.

(** X6. A filter spec that is not empty and has a piece [parseFilterSpec]
    does not accept: [setupFilters] throws, whatever the default level spec
    is, and the registry is exactly as before the call. *)
Theorem setupFilters_bad_filter_spec_atomic (a_filterSpec a_defaultLevelSpec : string)
        (self : CLogChannelRegistrySingleton) :
  a_filterSpec <> "" ->
  ~ Forall accepted_pair (split a_filterSpec ",") ->
  exists e : exception,
    setupFilters a_filterSpec a_defaultLevelSpec self = (Throw e, self) /\
    (e = InvalidFilterSpec a_filterSpec \/
     exists level_str : string,
       (level_str ∉ level_human_strings) /\ e = InvalidLevelSpec level_str).
Proof.
  intros Hne Hbad. destruct (parseFilterSpec a_filterSpec) as [filters|e] eqn:Hparse.
  - assert (a_filterSpec = "" \/ Forall accepted_pair (split a_filterSpec ",")) as [?|?];
      [apply parseFilterSpec_Ok_iff; by eexists|done..].
  - exists e. split; [by apply setupFilters_bad_filter_spec|by apply parseFilterSpec_Throw].
Qed.

Lemma setupFilters_bad_filter_spec_atomic_witness :
  exists e : exception,
    setupFilters "APP:info,DB" "debug" (addSink 1%nat instance)
    = (Throw e, addSink 1%nat instance).
Proof.
  destruct (setupFilters_bad_filter_spec_atomic "APP:info,DB" "debug"
              (addSink 1%nat instance)) as (e & He & _).
  - discriminate.
  - intros Hall. apply (parseFilterPairs_Ok_iff "APP:info,DB" _ ∅) in Hall as [out Hout].
    vm_compute in Hout. discriminate Hout.
  - by exists e.
Defined.

(** X7. A call of [setupFilters] that returns normally replaces the filter
    configuration: the registry it leaves does not depend on an earlier call
    of [setupFilters], whether that one returned or threw. *)
Theorem setupFilters_replaces (a_filterSpec a_defaultLevelSpec : string)
        (earlierFilterSpec earlierDefaultLevelSpec : string)
        (self : CLogChannelRegistrySingleton) :
  (setupFilters a_filterSpec a_defaultLevelSpec self).1 = Ok tt ->
  setupFilters a_filterSpec a_defaultLevelSpec
               (setupFilters earlierFilterSpec earlierDefaultLevelSpec self).2
  = setupFilters a_filterSpec a_defaultLevelSpec self.
Proof.
  destruct (parseFilterSpec a_filterSpec) as [filters|e] eqn:Hparse.
  - destruct (ParseLevel a_defaultLevelSpec) as [l|e] eqn:Hlevel.
    + intros _. rewrite !(setupFilters_Ok _ _ _ _ _ Hparse Hlevel). f_equal.
      unfold setupFilters.
      destruct (parseFilterSpec earlierFilterSpec) as [filters0|e0]; [|reflexivity].
      destruct (ParseLevel earlierDefaultLevelSpec); reflexivity.
    + by rewrite (setupFilters_bad_default_level _ _ _ _ _ Hparse Hlevel).
  - by rewrite (setupFilters_bad_filter_spec _ _ _ _ Hparse).
Qed.

Lemma setupFilters_replaces_witness :
  setupFilters "DB:debug" "error" (setupFilters "APP:info" "trace" instance).2
  = setupFilters "DB:debug" "error" instance.
Proof.
  apply (setupFilters_replaces "DB:debug" "error" "APP:info" "trace" instance).
  reflexivity.
Defined.

(** ** More on [filter] and [reset] *)

(** X8. [filter] is monotone in the level: when it passes a level, it
    passes every level other than [off] of smaller or equal value, for the
    same channel and registry. *)
Theorem filter_monotone (self : CLogChannelRegistrySingleton) (a_channel : string)
        (a_level less_verbose : ELogLevels) :
  filter a_channel a_level self = Ok true ->
  less_verbose <> off ->
  level_value less_verbose <= level_value a_level ->
  filter a_channel less_verbose self = Ok true.
Proof.
  unfold filter. intros Hpass Hoff Hle.
  destruct (decide (a_level = off)); [done|].
  destruct (decide (less_verbose = off)); [done|].
  injection Hpass as Hpass. f_equal.
  apply level_ge_spec in Hpass. apply level_ge_spec. lia.
Qed.

Lemma filter_monotone_witness :
  filter "APP" warning (setupFilters "APP:info" "error" instance).2 = Ok true.
Proof.
  apply (filter_monotone (setupFilters "APP:info" "error" instance).2 "APP" info warning).
  - reflexivity.
  - discriminate.
  - vm_compute. discriminate.
Defined.

(** X9. In the registry as [instance()] first builds it, and in any
    registry after [reset], [filter] is false for every channel and every
    level other than [off]. *)
Theorem filter_rejects_all_when_unconfigured (self : CLogChannelRegistrySingleton)
        (a_channel : string) (a_level : ELogLevels) :
  a_level <> off ->
  filter a_channel a_level instance = Ok false /\
  filter a_channel a_level (reset self) = Ok false.
Proof.
  intros Hoff. unfold filter. destruct (decide (a_level = off)); [done|].
  cbn. rewrite lookup_empty. by destruct a_level.
Qed.

Lemma filter_rejects_all_when_unconfigured_witness :
  filter "APP" fatal (reset (setupFilters "APP:debug" "debug" instance).2) = Ok false.
Proof.
  apply (filter_rejects_all_when_unconfigured
           (setupFilters "APP:debug" "debug" instance).2 "APP" fatal).
  discriminate.
Defined.

(** X10. [reset] is idempotent, and on a registry whose metadata map is
    empty and whose metadata flag is clear it gives back the registry that
    [instance()] first builds. *)
Theorem reset_restores_instance (self : CLogChannelRegistrySingleton) :
  reset (reset self) = reset self /\
  (m_metadata self = ∅ -> m_doMetadata self = false -> reset self = instance).
Proof.
  split; [done|]. destruct self; cbn. by intros -> ->.
Qed.

Lemma reset_restores_instance_witness :
  reset (addIndent 3%nat
           (enableThreadID (addSink 1%nat (setupFilters "APP:info" "error" instance).2)))
  = instance.
Proof.
  apply (reset_restores_instance
           (addIndent 3%nat
              (enableThreadID (addSink 1%nat (setupFilters "APP:info" "error" instance).2))));
    reflexivity.
Defined.

(** ** More on indentation *)

Lemma set_m_indents_same (self : CLogChannelRegistrySingleton) (indents : ThreadIndentMap) :
  indents = m_indents self -> set_m_indents indents self = self.
Proof. intros ->. by destruct self. Qed.

(** X11. From a registry in which the calling thread has no zero counter
    stored and is below [UINT_MAX], [addIndent] followed by [removeIndent]
    gives back the very same registry, the map of counters included: an
    entry made for the thread is erased again. *)
Theorem removeIndent_addIndent_restores (tid : TThreadID)
        (self : CLogChannelRegistrySingleton) :
  m_indents self !! tid <> Some 0 ->
  0 <= getIndent tid self < UINT_MAX ->
  removeIndent tid (addIndent tid self) = self.
Proof.
  unfold getIndent, addIndent, removeIndent. intros Hnz Hrange.
  destruct (m_indents self !! tid) as [second|] eqn:Hfind; cbn [m_indents set_m_indents].
  - assert (second <> 0) as Hsecond by congruence.
    rewrite unsigned_wrap_small by lia.
    rewrite lookup_insert_eq. destruct (Z.ltb_spec 0 (second + 1)); [|lia].
    rewrite lookup_insert_eq. destruct (Z.eqb_spec (second + 1 - 1) 0); [lia|].
    rewrite insert_insert_eq. destruct self; cbn in *. unfold set_m_indents; cbn.
    f_equal. apply insert_id. rewrite Hfind. f_equal. lia.
  - rewrite lookup_insert_eq. cbn. rewrite lookup_insert_eq. cbn.
    rewrite insert_insert_eq. destruct self; cbn in *. unfold set_m_indents; cbn.
    f_equal. by apply delete_insert_id.
Qed.

Lemma removeIndent_addIndent_restores_witness :
  removeIndent 3%nat (addIndent 3%nat (addIndent 5%nat instance))
  = addIndent 5%nat instance.
Proof.
  apply (removeIndent_addIndent_restores 3%nat (addIndent 5%nat instance)).
  - vm_compute. discriminate.
  - vm_compute. split; [discriminate|reflexivity].
Defined.

(** X12. After [removeIndent] the calling thread never has a zero counter
    stored (a counter that reaches zero is erased, so at depth zero the thread
    has no entry), and the counters of the other threads are as before. *)
Theorem removeIndent_erases_zero (tid other : TThreadID)
        (self : CLogChannelRegistrySingleton) :
  m_indents (removeIndent tid self) !! tid <> Some 0 /\
  (getIndent tid (removeIndent tid self) = 0 ->
   m_indents (removeIndent tid self) !! tid = None) /\
  (other <> tid ->
   m_indents (removeIndent tid self) !! other = m_indents self !! other).
Proof.
  assert (m_indents (removeIndent tid self) !! tid <> Some 0) as Hnz.
  { unfold removeIndent. cbn.
    destruct (m_indents self !! tid) as [second|] eqn:Hfind.
    - destruct (Z.ltb_spec 0 second).
      + rewrite lookup_insert_eq. destruct (Z.eqb_spec (second - 1) 0).
        * by rewrite lookup_delete_eq.
        * rewrite lookup_insert_eq. congruence.
      + rewrite Hfind. destruct (Z.eqb_spec second 0).
        * by rewrite lookup_delete_eq.
        * rewrite Hfind. congruence.
    - by rewrite !Hfind. }
  split; [exact Hnz|]. split.
  - unfold getIndent.
    destruct (m_indents (removeIndent tid self) !! tid) as [second|]; [|done].
    intros ->. by destruct Hnz.
  - intros Hne. pose proof (getIndent_removeIndent_other other tid self) as Hsame.
    unfold removeIndent in *. cbn in *.
    destruct (m_indents self !! tid) as [second|] eqn:Hfind.
    + destruct (0 <? second).
      * rewrite lookup_insert_eq. destruct (second - 1 =? 0).
        -- by rewrite lookup_delete_ne, lookup_insert_ne.
        -- by rewrite lookup_insert_ne.
      * rewrite Hfind. destruct (second =? 0); [by rewrite lookup_delete_ne|done].
    + by rewrite Hfind.
Qed.

Lemma removeIndent_erases_zero_witness :
  m_indents (removeIndent 3%nat (addIndent 5%nat (addIndent 3%nat instance))) !! 3%nat = None /\
  m_indents (removeIndent 3%nat (addIndent 5%nat (addIndent 3%nat instance))) !! 5%nat
  = Some 1.
Proof.
  destruct (removeIndent_erases_zero 3%nat 5%nat
              (addIndent 5%nat (addIndent 3%nat instance))) as (_ & Hzero & Hother).
  split; [apply Hzero; reflexivity|].
  rewrite Hother by discriminate. reflexivity.
Defined.

(** The indent calls change nothing but the map of counters. *)
Lemma run_indent_calls_frame (calls : list (TThreadID * IndentCall))
      (self : CLogChannelRegistrySingleton) :
  exists indents : ThreadIndentMap,
    run_indent_calls calls self = set_m_indents indents self.
Proof.
  unfold run_indent_calls. revert self.
  induction calls as [|[tid call] calls IH]; intros self.
  - exists (m_indents self). by destruct self.
  - cbn [foldl]. destruct (IH (run_indent_call self (tid, call))) as [indents ->].
    exists indents. unfold run_indent_call. cbn [fst snd].
    destruct call; [unfold addIndent|unfold removeIndent];
      repeat case_match; by destruct self.
Qed.

Section LogIndent.
Context `{Runtime}.

(** X13. What [log] writes for a thread does not depend on the indent calls
    of other threads: after any sequence of [addIndent]/[removeIndent] calls
    none of which is the logging thread's, [log] writes the same strings to
    the same sinks as before them. *)
Theorem log_ignores_other_threads_indent (tid : TThreadID) (now a_channel : string)
        (a_level : ELogLevels) (a_msg : string) (a_mapData : TObject)
        (calls : list (TThreadID * IndentCall)) (self : CLogChannelRegistrySingleton) :
  calls_of tid calls = [] ->
  log tid now a_channel a_level a_msg a_mapData (run_indent_calls calls self)
  = log tid now a_channel a_level a_msg a_mapData self.
Proof.
  intros Hnone.
  pose proof (getIndent_run_indent_calls tid calls self) as Hdepth.
  rewrite Hnone in Hdepth. cbn in Hdepth.
  destruct (run_indent_calls_frame calls self) as [indents Hframe].
  rewrite Hframe in *. unfold log, CLogEntry_new. rewrite Hdepth.
  cbn [m_formatter m_sinks set_m_indents getServiceName m_serviceName].
  destruct (m_formatter self) as [[|]|]; reflexivity.
Qed.

End LogIndent.

Lemma log_ignores_other_threads_indent_witness :
  @log demo_runtime 3%nat demo_timestamp "APP" info "x" ∅
       (run_indent_calls [(5%nat, AddIndent); (7%nat, AddIndent); (5%nat, RemoveIndent)]
                         (addSink 1%nat (addIndent 3%nat instance)))
  = @log demo_runtime 3%nat demo_timestamp "APP" info "x" ∅
         (addSink 1%nat (addIndent 3%nat instance)).
Proof.
  apply (@log_ignores_other_threads_indent demo_runtime).
  reflexivity.
Defined.

(** ** More on the standard formatter *)

Lemma resize_length (n : nat) (c : ascii) (s : string) : String.length (resize n c s) = n.
Proof.
  revert s. induction n as [|n IH]; intros s; [done|].
  destruct s; cbn; by rewrite IH.
Qed.

Lemma indent_loop_length (n : nat) : String.length (indent_loop n) = (2 * n)%nat.
Proof.
  induction n as [|n IH]; [done|].
  cbn [indent_loop]. rewrite str_length_app, IH. cbn. lia.
Qed.

Lemma level_to_stream_length (l : ELogLevels) : String.length (level_to_stream l) = 4%nat.
Proof. by destruct l. Qed.

Lemma object_items_length (o : TObject) : length (object_items o) = size o.
Proof.
  unfold object_items.
  rewrite (Permutation_length (merge_sort_Permutation key_le (map_to_list o))).
  apply length_map_to_list.
Qed.

(** X16. [operator<<] prints a level as four characters, and two different
    levels as two different strings. *)
Theorem level_to_stream_tags (l l' : ELogLevels) :
  String.length (level_to_stream l) = 4%nat /\
  (level_to_stream l = level_to_stream l' -> l = l').
Proof. split; [apply level_to_stream_length|]. by destruct l, l'. Qed.

Lemma level_to_stream_tags_witness :
  String.length (level_to_stream warning) = 4%nat /\ level_to_stream debug1 = "DBG1".
Proof.
  split; [apply (level_to_stream_tags warning off)|reflexivity].
Defined.

Section StdFormatter.
Context `{Runtime}.

(** X14. The header of the standard formatter has a fixed layout: the
    timestamp, the service name between angle brackets after a space when it
    is not empty, fourteen characters for the bracketed channel and level
    whatever the length of the channel name, the thread id after a colon when
    the thread-id flag is set, and two characters for each level of indent. *)
Theorem CStdLogFormatter_getHeader_length (registry : CLogChannelRegistrySingleton)
        (a_entry : CLogEntry) :
  String.length (CStdLogFormatter.getHeader registry a_entry)
  = (String.length (timestamp a_entry)
     + (if String.eqb (serviceName a_entry) "" then 0
        else String.length (serviceName a_entry) + 3)
     + 14
     + (if threadIDEnabled registry
        then String.length (thread_id_to_stream (threadId a_entry)) + 1
        else 0)
     + 2 * Z.to_nat (nIndent a_entry))%nat.
Proof.
  unfold CStdLogFormatter.getHeader. cbv zeta.
  rewrite !str_length_app, resize_length, level_to_stream_length, indent_loop_length.
  unfold MAX_CHANNEL_LENGTH.
  destruct (String.eqb (serviceName a_entry) ""), (threadIDEnabled registry);
    rewrite ?str_length_app; cbn [String.length]; lia.
Qed.

(** X15. The standard formatter returns one line for each piece [split]
    cuts the message into at the newlines and one more for each key of the
    map; each line is the header of the entry, some text and a newline; for
    an empty message and an empty map it returns no line at all. *)
Theorem CStdLogFormatter_formatEntry_lines (registry : CLogChannelRegistrySingleton)
        (a_entry : CLogEntry) :
  length (CStdLogFormatter.formatEntry registry a_entry)
  = (length (split (message a_entry) newline) + size (mapData a_entry))%nat /\
  Forall (fun line => exists body : string,
              line = CStdLogFormatter.getHeader registry a_entry +:+ body +:+ endl)
         (CStdLogFormatter.formatEntry registry a_entry) /\
  (message a_entry = "" -> mapData a_entry = ∅ ->
   CStdLogFormatter.formatEntry registry a_entry = []).
Proof.
  unfold CStdLogFormatter.formatEntry. cbv zeta. split; [|split].
  - by rewrite length_app, !length_map, object_items_length.
  - apply Forall_app. split; apply Forall_forall; intros line Hin;
      apply list_elem_of_In, in_map_iff in Hin as (x & <- & _).
    + by exists x.
    + exists (x.1 +:+ ": " +:+ json_value_to_stream x.2).
      by rewrite !str_app_assoc.
  - intros -> ->. reflexivity.
Qed.

End StdFormatter.

Lemma CStdLogFormatter_formatEntry_lines_witness :
  @CStdLogFormatter.formatEntry demo_runtime instance
    (CLogEntry_new instance 7%nat demo_timestamp "APP" info "" ∅) = [].
Proof.
  apply (@CStdLogFormatter_formatEntry_lines demo_runtime instance
           (CLogEntry_new instance 7%nat demo_timestamp "APP" info "" ∅));
    reflexivity.
Defined.

(** ** More on [log] *)

Lemma writes_to_one_line (a_sink : TStreamRef) (line : string) (sinks : list TStreamRef) :
  (a_sink ∉ sinks -> writes_to a_sink (map (fun sink => (sink, line)) sinks) = []) /\
  (NoDup sinks -> a_sink ∈ sinks ->
   writes_to a_sink (map (fun sink => (sink, line)) sinks) = [line]).
Proof.
  unfold writes_to. induction sinks as [|sink sinks [IHout IHin]]; split.
  - done.
  - by intros _ ?%elem_of_nil.
  - intros [Hne Hout]%not_elem_of_cons. cbn.
    rewrite decide_False by done. by apply IHout.
  - intros [Hfresh Hnodup]%NoDup_cons Hin. cbn.
    destruct (decide (sink = a_sink)) as [->|Hne].
    + cbn. by rewrite IHout.
    + apply elem_of_cons in Hin as [->|Hin]; [done|]. by apply IHin.
Qed.

Section LogFanOut.
Context `{Runtime}.

(** X17. With a formatter installed, [log] makes one write for each line of
    the formatted entry and each registered sink; a sink registered once
    receives exactly the lines of the formatted entry, in order, and a stream
    that is not registered receives nothing. *)
Theorem log_fan_out (tid : TThreadID) (now a_channel : string) (a_level : ELogLevels)
        (a_msg : string) (a_mapData : TObject) (self : CLogChannelRegistrySingleton)
        (f : CLogFormatterBase) (a_sink : TStreamRef) :
  m_formatter self = Some f ->
  let lines :=
    formatEntry f self (CLogEntry_new self tid now a_channel a_level a_msg a_mapData) in
  let writes := log tid now a_channel a_level a_msg a_mapData self in
  length writes = (length lines * length (m_sinks self))%nat /\
  (NoDup (m_sinks self) -> a_sink ∈ m_sinks self -> writes_to a_sink writes = lines) /\
  (a_sink ∉ m_sinks self -> writes_to a_sink writes = []).
Proof.
  intros Hf lines writes. unfold writes, log. rewrite Hf. fold lines.
  induction lines as [|line lines (IHlen & IHin & IHout)]; [done|].
  cbn [flat_map]. unfold writes_to in *. rewrite omap_app, length_app, length_map.
  destruct (writes_to_one_line a_sink line (m_sinks self)) as [Hout Hin].
  unfold writes_to in Hout, Hin. split; [|split].
  - rewrite IHlen. cbn. lia.
  - intros Hnodup Hmem. by rewrite Hin, IHin.
  - intros Hnot. by rewrite Hout, IHout.
Qed.

(** X18. After [UseJSONFormatter], [log] writes one and the same string to
    each registered sink, in the order of registration: the serialised object
    of the entry followed by a newline. *)
Theorem log_json_one_write_per_sink (tid : TThreadID) (now a_channel : string)
        (a_level : ELogLevels) (a_msg : string) (a_mapData : TObject)
        (self : CLogChannelRegistrySingleton) :
  log tid now a_channel a_level a_msg a_mapData (UseJSONFormatter self)
  = map (fun sink =>
           (sink,
            json_dump (CJSONLogFormatter.entryObject self
                         (CLogEntry_new self tid now a_channel a_level a_msg a_mapData))
            +:+ endl))
        (m_sinks self).
Proof. unfold log. cbn. apply app_nil_r. Qed.

(** X19. [ALOG_THREAD] at a level other than [off] leaves the registry as
    it found it, the thread-id flag included, and writes what the log
    statement writes with the flag set. At the level [off] the log statement
    throws and the flag is left set. *)
Theorem ALOG_THREAD_restores_flag (tid : TThreadID) (now a_channel : string)
        (a_level : ELogLevels) (a_msg : string) (a_map : TObject)
        (self : CLogChannelRegistrySingleton) :
  (a_level <> off ->
   (ALOG_THREAD tid now a_channel a_level a_msg a_map self).2 = self /\
   (ALOG_THREAD tid now a_channel a_level a_msg a_map self).1
   = ALOG_LEVEL_IMPL tid now a_channel a_level a_msg a_map (enableThreadID self)) /\
  (ALOG_THREAD tid now a_channel off a_msg a_map self).1 = Throw LoggingToOffDisallowed /\
  threadIDEnabled (ALOG_THREAD tid now a_channel off a_msg a_map self).2 = true.
Proof.
  unfold ALOG_THREAD, ALOG_LEVEL_IMPL, filter. split; [|split].
  - intros Hoff. destruct (decide (a_level = off)); [done|].
    destruct self as [? ? [|] ? ? ? ? ? ?]; cbn; done.
  - by destruct self as [? ? [|] ? ? ? ? ? ?].
  - by destruct self as [? ? [|] ? ? ? ? ? ?].
Qed.

End LogFanOut.

Lemma log_fan_out_witness :
  writes_to 2%nat
    (@log demo_runtime 7%nat demo_timestamp "APP" warning "x" {[ "k" := JNumber 1 ]}
          (addSink 2%nat (addSink 1%nat instance)))
  = @formatEntry demo_runtime StdLogFormatter (addSink 2%nat (addSink 1%nat instance))
      (CLogEntry_new (addSink 2%nat (addSink 1%nat instance)) 7%nat demo_timestamp
                     "APP" warning "x" {[ "k" := JNumber 1 ]}).
Proof.
  apply (@log_fan_out demo_runtime 7%nat demo_timestamp "APP" warning "x"
           {[ "k" := JNumber 1 ]} (addSink 2%nat (addSink 1%nat instance))
           StdLogFormatter 2%nat).
  - reflexivity.
  - repeat constructor; rewrite ?not_elem_of_cons; try (split; [discriminate|]);
      apply not_elem_of_nil.
  - apply list_elem_of_further, list_elem_of_here.
Defined.

Lemma ALOG_THREAD_restores_flag_witness :
  (@ALOG_THREAD demo_runtime 7%nat demo_timestamp "APP" info "x" ∅
                (setupFilters "APP:info" "error" (addSink 1%nat instance)).2).2
  = (setupFilters "APP:info" "error" (addSink 1%nat instance)).2.
Proof.
  apply (@ALOG_THREAD_restores_flag demo_runtime 7%nat demo_timestamp "APP" info "x" ∅
           (setupFilters "APP:info" "error" (addSink 1%nat instance)).2).
  discriminate.
Defined.

(** ** [CLogScope] *)

Lemma split_prefix_length (delim : ascii) (p q msg : string) :
  p <> "" -> q <> "" -> free_of delim p -> free_of delim q ->
  length (split (p +:+ msg) delim) = length (split (q +:+ msg) delim).
Proof.
  intros Hp Hq Hfp Hfq.
  destruct (first_delim delim msg) as [Hfree|(a & b & Ha & ->)].
  - rewrite !split_free by (by apply free_of_app).
    destruct (String.eqb_spec (p +:+ msg) "") as [[? _]%str_app_eq_nil|]; [done|].
    by destruct (String.eqb_spec (q +:+ msg) "") as [[? _]%str_app_eq_nil|].
  - rewrite <- !str_app_assoc. by rewrite !split_delim by (by apply free_of_app).
Qed.

Lemma fan_out_length (lines : list string) (sinks : list TStreamRef) :
  length (flat_map (fun line => map (fun sink => (sink, line)) sinks) lines)
  = (length lines * length sinks)%nat.
Proof.
  induction lines as [|line lines IH]; [done|].
  cbn [flat_map]. rewrite length_app, length_map, IH. cbn. lia.
Qed.

Section Scope.
Context `{Runtime}.

Lemma formatEntry_length (f : CLogFormatterBase) (registry : CLogChannelRegistrySingleton)
      (a_entry : CLogEntry) :
  length (formatEntry f registry a_entry)
  = match f with
    | StdLogFormatter =>
        (length (split (message a_entry) newline) + size (mapData a_entry))%nat
    | JSONLogFormatter => 1%nat
    end.
Proof.
  destruct f; [|done]. cbn. unfold CStdLogFormatter.formatEntry. cbv zeta.
  by rewrite length_app, !length_map, object_items_length.
Qed.


(** X21. [log] writes nothing when no formatter is installed, whatever the
    sinks are, and nothing when no sink is registered, whatever the formatter
    is. *)
Theorem log_writes_nothing_unconfigured (tid : TThreadID) (now a_channel : string)
        (a_level : ELogLevels) (a_msg : string) (a_mapData : TObject)
        (self : CLogChannelRegistrySingleton) :
  m_formatter self = None \/ m_sinks self = [] ->
  log tid now a_channel a_level a_msg a_mapData self = [].
Proof.
  intros [Hnull|Hnone]; [by apply log_no_formatter|by apply log_no_sinks].
Qed.

End Scope.


Lemma log_writes_nothing_unconfigured_witness :
  @log demo_runtime 7%nat demo_timestamp "APP" info "x" ∅
       (setFormatter None (addSink 1%nat instance)) = [].
Proof.
  apply (@log_writes_nothing_unconfigured demo_runtime).
  left. reflexivity.
Defined.
